(** * fetch: a fluent HTTP request builder (Go), shallow embedding

    The development follows [request.go]: the builder [Request] with its
    configuration methods, the materializer [request], the executor [do]
    and the error classifier [processErrorResponse].

    The source file holds two revisions of [request.go], one after the
    other.  The development follows the later one, which adds [JSON],
    [Read] and [ReadString] and cuts the query off the URL in [New]; the
    [New] of the earlier revision is kept in [Earlier].

    Go strings are byte sequences and are modelled by [string]; [[]byte] is
    [list byte]; [map[string][]string] ([url.Values], [http.Header]) is
    [gmap string (list string)].  The two slices of pairs held by a builder
    are modelled with their backing arrays in an explicit heap, because
    [append] may write into an array that several builders share. *)

From Stdlib Require Import ZArith Strings.Byte Strings.Ascii.
From stdpp Require Import gmap strings list fin_maps pretty.

Local Open Scope string_scope.
Local Open Scope nat_scope.
Local Open Scope list_scope.

(** ** Go runtime values used by the package *)

(** [error] values.  The four [os] sentinels are the ones the classifier
    wraps; [ErrExternal] stands for an error value owned by a collaborator
    (transport, limiter, codec, body stream), identified by its message. *)
Inductive sentinel :=
  | ErrNotExist
  | ErrPermission
  | ErrDeadlineExceeded
  | ErrInvalid
  | ErrExternal (msg : string).

Inductive error :=
  | Sentinel (s : sentinel)
  | errorString (msg : string)
  | wrapError (msg : string) (err : error).

#[global] Instance sentinel_eq_dec : EqDecision sentinel.
Proof. solve_decision. Defined.

Definition sentinel_msg (s : sentinel) : string :=
  match s with
  | ErrNotExist => "file does not exist"
  | ErrPermission => "permission denied"
  | ErrDeadlineExceeded => "i/o timeout"
  | ErrInvalid => "invalid argument"
  | ErrExternal msg => msg
  end.

(** The [Error()] method. *)
Definition Error (e : error) : string :=
  match e with
  | Sentinel s => sentinel_msg s
  | errorString msg => msg
  | wrapError msg _ => msg
  end.

(** [errors.Is(e, target)] for a sentinel target: walk the [Unwrap] chain. *)
Fixpoint errors_Is (e : error) (target : sentinel) : bool :=
  match e with
  | Sentinel s => bool_decide (s = target)
  | errorString _ => false
  | wrapError _ err => errors_Is err target
  end.

(** [fmt.Errorf("%w: %s", err, s)], [fmt.Errorf("%s: %s", a, b)] and
    [fmt.Errorf("failed to read error body: %w", err)]. *)
Definition Errorf_w_s (err : error) (s : string) : error :=
  wrapError (Error err +:+ ": " +:+ s) err.

Definition Errorf_s_s (a b : string) : error :=
  errorString (a +:+ ": " +:+ b).

Definition Errorf_read_body (err : error) : error :=
  wrapError ("failed to read error body: " +:+ Error err) err.

(** Results of fallible calls.  [Panic] is a run-time panic (the only one
    the package can raise itself is a call through a nil client). *)
Inductive result (A : Type) :=
  | Ok (a : A)
  | Failed (e : error)
  | Panic.
Arguments Ok {A} a.
Arguments Failed {A} e.
Arguments Panic {A}.

Definition bind {A B} (r : result A) (k : A → result B) : result B :=
  match r with
  | Ok a => k a
  | Failed e => Failed e
  | Panic => Panic
  end.

Notation "'let?' x := r 'in' k" := (bind r (λ x, k))
  (at level 10, x name, r at level 100, k at level 200).

(** [interface{}] candidates of a pair.  [VOther shown] is a value of any
    other dynamic type, carried with the text [fmt.Sprint] prints for it. *)
Inductive value :=
  | VNil
  | VBytes (b : list byte)
  | VString (s : string)
  | VInt (n : Z)
  | VBool (b : bool)
  | VOther (shown : string).

Definition join (sep : string) (l : list string) : string :=
  match l with
  | [] => ""
  | x :: l => fold_left (λ acc y, acc +:+ sep +:+ y) l x
  end.

Definition fmt_Sprint (v : value) : string :=
  match v with
  | VNil => "<nil>"
  | VBytes b => "[" +:+ join " " ((λ x, pretty (Byte.to_nat x)) <$> b) +:+ "]"
  | VString s => s
  | VInt n => pretty n
  | VBool true => "true"
  | VBool false => "false"
  | VOther shown => shown
  end.

(** ** Strings *)

Definition strings_HasPrefix (s prefix : string) : bool := String.prefix prefix s.

(** [strings.Cut]: split around the first occurrence of a non-empty [sep]. *)
Fixpoint strings_Cut (s sep : string) : option (string * string) :=
  if String.prefix sep s
  then Some ("", String.substring (String.length sep) (String.length s - String.length sep) s)
  else match s with
       | EmptyString => None
       | String c s' =>
           match strings_Cut s' sep with
           | Some (before, after) => Some (String c before, after)
           | None => None
           end
       end.

(** [strings.SplitN(s, sep, 2)] for a non-empty [sep]: at most two pieces. *)
Definition strings_SplitN_2 (s sep : string) : list string :=
  match strings_Cut s sep with
  | Some (before, after) => [before; after]
  | None => [s]
  end.

(** ** Data model *)

Record Userinfo := {
  username : string;
  password : string;
  passwordSet : bool;
}.

Record URL := {
  uScheme : string;
  uOpaque : string;
  uUser : option Userinfo;
  uHost : string;
  uPath : string;
  uRawQuery : string;
  uFragment : string;
}.

(** [context.Context] values: the background context or a caller's one. *)
Inductive context_Context :=
  | Background
  | CallerCtx (id : nat).

(** Pointers to collaborators are handles; [None] is the nil pointer. *)
Definition http_Client := nat.
Definition rate_Limiter := nat.
Definition http_DefaultClient : http_Client := 0.

Record Pair := {
  key : string;
  values : list value;
}.

Definition zeroPair : Pair := {| key := ""; values := [] |}.

(** A slice header: backing array address, length and capacity. *)
Record slice := {
  ptr : nat;
  len : nat;
  cap : nat;
}.

Definition nilSlice : slice := {| ptr := 0; len := 0; cap := 0 |}.

(** The heap of backing arrays of [[]pair] slices, indexed by address. *)
Abbreviation Heap := (list (list Pair)).

(** The elements a slice shows: the first [len] cells of its array. *)
Definition elems (h : Heap) (s : slice) : list Pair :=
  take (len s) (default [] (h !! ptr s)).

Record Request := {
  client : option http_Client;
  ctx : option context_Context;
  method : string;
  url : string;
  query : slice;
  header : slice;
  user : option Userinfo;
  limiter : option rate_Limiter;
  body : list byte;
  bodyMime : string;
}.

Record HttpRequest := {
  req_Method : string;
  req_URL : URL;
  req_Header : gmap string (list string);
  req_Body : list byte;
  req_ctx : context_Context;
}.

(** A response body stream: the bytes it delivers and how it ends. *)
Record BodyStream := {
  body_data : list byte;
  body_err : option error;
}.

Record Response := {
  Status : string;
  StatusCode : Z;
  resp_Header : gmap string (list string);
  resp_Body : BodyStream;
}.

(** The values [Open] and [Stat] build: the URL of the request and the
    header of the response, and for a file the open body. *)
Record fileInfo := {
  fi_url : URL;
  fi_header : gmap string (list string);
}.

Record file := {
  f_fileInfo : fileInfo;
  f_body : BodyStream;
}.

Definition maxErrLen : nat := Nat.shiftl 1 12.

(** ** Collaborators

    What the package takes from the Go runtime and from the libraries it
    imports.  Theorems are stated for every implementation. *)
Class Lib := {
  (** capacity chosen by [append] when the array is full: old capacity,
      needed length *)
  growcap : nat → nat → nat;
  growcap_fits : ∀ c n : nat, (n ≤ growcap c n)%nat;
  CanonicalHeaderKey : string → string;
  url_Parse : string → result URL;
  URL_Query : URL → gmap string (list string);
  URL_String : URL → string;
  Values_Encode : gmap string (list string) → string;
  http_NewRequest : string → string → list byte → result HttpRequest;
  (** [json.Marshal]: the encoding and the error, as Go returns them; the
      slice is nil whenever an error is reported *)
  json_Marshal : value → list byte * option error;
  json_Marshal_nil : ∀ v e, (json_Marshal v).2 = Some e → (json_Marshal v).1 = [];
}.

(** The transport and the rate limiter act on a world of type [W]. *)
Class Net (W : Type) := {
  limiter_Wait : rate_Limiter → context_Context → W → option error * W;
  client_Do : http_Client → HttpRequest → W → result Response * W;
}.

(** ** RequestBuilder *)

(** [append(s, x)]: write in place when the array has room, otherwise
    copy the elements to a new, larger array. *)
Definition append `{Lib} (s : slice) (x : Pair) (h : Heap) : slice * Heap :=
  if decide (S (len s) ≤ cap s)%nat
  then ({| ptr := ptr s; len := S (len s); cap := cap s |},
        alter (λ arr, <[len s := x]> arr) (ptr s) h)
  else let c := growcap (cap s) (S (len s)) in
       ({| ptr := length h; len := S (len s); cap := c |},
        h ++ [elems h s ++ x :: replicate (c - S (len s)) zeroPair]).

Definition New (method url : string) : Request :=
  let url := if strings_HasPrefix url "/" || strings_HasPrefix url ":"
             then "http://localhost" +:+ url else url in
  {| client := Some http_DefaultClient; ctx := None; method := method;
     url := default "" (strings_SplitN_2 url "?" !! 0%nat);
     query := nilSlice; header := nilSlice; user := None; limiter := None;
     body := []; bodyMime := "" |}.

(** [New] as the earlier revision has it: the URL is stored whole. *)
Module Earlier.
Definition New (method url : string) : Request :=
  let url := if strings_HasPrefix url "/" || strings_HasPrefix url ":"
             then "http://localhost" +:+ url else url in
  {| client := Some http_DefaultClient; ctx := None; method := method;
     url := url;
     query := nilSlice; header := nilSlice; user := None; limiter := None;
     body := []; bodyMime := "" |}.
End Earlier.

Definition Get (url : string) : Request := New "GET" url.
Definition Post (url : string) : Request := New "POST" url.
Definition Put (url : string) : Request := New "PUT" url.
Definition Delete (url : string) : Request := New "DELETE" url.

(** Field assignments on the receiver's copy. *)
Definition set_client (t : Request) (c : option http_Client) : Request :=
  {| client := c; ctx := ctx t; method := method t; url := url t;
     query := query t; header := header t; user := user t;
     limiter := limiter t; body := body t; bodyMime := bodyMime t |}.

Definition set_ctx (t : Request) (c : option context_Context) : Request :=
  {| client := client t; ctx := c; method := method t; url := url t;
     query := query t; header := header t; user := user t;
     limiter := limiter t; body := body t; bodyMime := bodyMime t |}.

Definition set_query (t : Request) (q : slice) : Request :=
  {| client := client t; ctx := ctx t; method := method t; url := url t;
     query := q; header := header t; user := user t;
     limiter := limiter t; body := body t; bodyMime := bodyMime t |}.

Definition set_header (t : Request) (q : slice) : Request :=
  {| client := client t; ctx := ctx t; method := method t; url := url t;
     query := query t; header := q; user := user t;
     limiter := limiter t; body := body t; bodyMime := bodyMime t |}.

Definition set_user (t : Request) (u : option Userinfo) : Request :=
  {| client := client t; ctx := ctx t; method := method t; url := url t;
     query := query t; header := header t; user := u;
     limiter := limiter t; body := body t; bodyMime := bodyMime t |}.

Definition set_limiter (t : Request) (l : option rate_Limiter) : Request :=
  {| client := client t; ctx := ctx t; method := method t; url := url t;
     query := query t; header := header t; user := user t;
     limiter := l; body := body t; bodyMime := bodyMime t |}.

Definition set_body (t : Request) (data : list byte) (mime : string) : Request :=
  {| client := client t; ctx := ctx t; method := method t; url := url t;
     query := query t; header := header t; user := user t;
     limiter := limiter t; body := data; bodyMime := mime |}.

(** The configuration methods.  The receiver is passed by value, so each
    works on its own copy of the struct; only [Query] and [Header] touch
    the heap, through [append]. *)
Definition Client (c : option http_Client) (t : Request) : Request := set_client t c.

Definition Context (c : option context_Context) (t : Request) : Request := set_ctx t c.

Definition Query `{Lib} (k : string) (vs : list value) (t : Request) (h : Heap)
  : Request * Heap :=
  let '(q, h') := append (query t) {| key := k; values := vs |} h in
  (set_query t q, h').

Definition Header `{Lib} (k : string) (vs : list value) (t : Request) (h : Heap)
  : Request * Heap :=
  let '(q, h') := append (header t) {| key := CanonicalHeaderKey k; values := vs |} h in
  (set_header t q, h').

Definition UserAgent `{Lib} (ua : string) (t : Request) (h : Heap) : Request * Heap :=
  Header "User-Agent" [VString ua] t h.

Definition Authorization `{Lib} (authHeader : string) (t : Request) (h : Heap)
  : Request * Heap :=
  Header "Authorization" [VString authHeader] t h.

Definition User (u : option Userinfo) (t : Request) : Request := set_user t u.

Definition Body (data : list byte) (mime : string) (t : Request) : Request :=
  set_body t data mime.

Definition Form `{Lib} (data : gmap string (list string)) (t : Request) : Request :=
  set_body t (String.list_byte_of_string (Values_Encode data))
    "application/x-www-form-urlencoded; charset=utf-8".

Definition JSON `{Lib} (v : value) (t : Request) : Request :=
  let '(data, _) := json_Marshal v in
  set_body t data "application/json; charset=utf-8".

Definition Limit (l : option rate_Limiter) (t : Request) : Request := set_limiter t l.

(** One configuration call, as data, and a chain of calls applied in order. *)
Inductive config :=
  | CClient (c : option http_Client)
  | CContext (c : option context_Context)
  | CQuery (k : string) (vs : list value)
  | CHeader (k : string) (vs : list value)
  | CUserAgent (ua : string)
  | CAuthorization (authHeader : string)
  | CUser (u : option Userinfo)
  | CBody (data : list byte) (mime : string)
  | CForm (data : gmap string (list string))
  | CJSON (v : value)
  | CLimit (l : option rate_Limiter).

Definition call `{Lib} (c : config) (t : Request) (h : Heap) : Request * Heap :=
  match c with
  | CClient c => (Client c t, h)
  | CContext c => (Context c t, h)
  | CQuery k vs => Query k vs t h
  | CHeader k vs => Header k vs t h
  | CUserAgent ua => UserAgent ua t h
  | CAuthorization a => Authorization a t h
  | CUser u => (User u t, h)
  | CBody data mime => (Body data mime t, h)
  | CForm data => (Form data t, h)
  | CJSON v => (JSON v t, h)
  | CLimit l => (Limit l t, h)
  end.

Fixpoint chain `{Lib} (cs : list config) (t : Request) (h : Heap) : Request * Heap :=
  match cs with
  | [] => (t, h)
  | c :: cs => let '(t', h') := call c t h in chain cs t' h'
  end.

(** ** Materializer *)

(** [string(v)] for a byte slice. *)
Definition string_of_bytes (v : list byte) : string := String.string_of_list_byte v.

(** The type switch in the loop of [injectPairs]. *)
Definition toString (vi : value) : string :=
  match vi with
  | VBytes v => string_of_bytes v
  | v => fmt_Sprint v
  end.

(** The inner loop: [vStr] after ranging over the candidates. *)
Definition effective (p : Pair) : string :=
  fold_left (λ _ vi, toString vi) (values p) "".

Fixpoint injectPairs (vals : gmap string (list string)) (ps : list Pair)
  : gmap string (list string) :=
  match ps with
  | [] => vals
  | p :: ps =>
      let vStr := effective p in
      if bool_decide (vStr = "") || bool_decide (vStr = "0") || bool_decide (vStr = "false")
      then injectPairs vals ps
      else injectPairs (<[key p := default [] (vals !! key p) ++ [vStr]]> vals) ps
  end.

Definition set_RawQuery (u : URL) (q : string) : URL :=
  {| uScheme := uScheme u; uOpaque := uOpaque u; uUser := uUser u; uHost := uHost u;
     uPath := uPath u; uRawQuery := q; uFragment := uFragment u |}.

Definition set_User (u : URL) (ui : option Userinfo) : URL :=
  {| uScheme := uScheme u; uOpaque := uOpaque u; uUser := ui; uHost := uHost u;
     uPath := uPath u; uRawQuery := uRawQuery u; uFragment := uFragment u |}.

Definition WithContext (req : HttpRequest) (c : context_Context) : HttpRequest :=
  {| req_Method := req_Method req; req_URL := req_URL req; req_Header := req_Header req;
     req_Body := req_Body req; req_ctx := c |}.

Definition set_Header (req : HttpRequest) (hd : gmap string (list string)) : HttpRequest :=
  {| req_Method := req_Method req; req_URL := req_URL req; req_Header := hd;
     req_Body := req_Body req; req_ctx := req_ctx req |}.

(** [Header.Set]: replace the values under the canonical key. *)
Definition Header_Set `{Lib} (hd : gmap string (list string)) (k v : string)
  : gmap string (list string) :=
  <[CanonicalHeaderKey k := [v]]> hd.

Definition strconv_Itoa (n : nat) : string := pretty n.

(** The first half of [request]: the URL handed to [http.NewRequest]. *)
Definition request_url `{Lib} (h : Heap) (t : Request) : result URL :=
  let? u := url_Parse (url t) in
  let rawQuery := Values_Encode (injectPairs (URL_Query u) (elems h (query t))) in
  let u := if bool_decide (rawQuery ≠ "") then set_RawQuery u rawQuery else u in
  Ok (set_User u (user t)).

Definition request `{Lib} (h : Heap) (t : Request) : result HttpRequest :=
  let? u := request_url h t in
  let? req := http_NewRequest (method t) (URL_String u) (body t) in
  let req := match ctx t with
             | Some c => WithContext req c
             | None => req
             end in
  let req := set_Header req (injectPairs (req_Header req) (elems h (header t))) in
  let req := if bool_decide (0 < length (body t))
             then set_Header req
                    (Header_Set (req_Header req) "Content-Length"
                       (strconv_Itoa (length (body t))))
             else req in
  let req := if bool_decide (bodyMime t ≠ "")
             then set_Header req (Header_Set (req_Header req) "Content-Type" (bodyMime t))
             else req in
  Ok req.

(** ** ErrorClassifier *)

Inductive Event :=
  | EvWait (l : rate_Limiter) (c : context_Context)
  | EvDo (c : http_Client) (req : HttpRequest)
  | EvReadAll
  | EvClose.

(** [io.ReadAll]: the bytes read and the error that stopped the read. *)
Definition io_ReadAll (b : BodyStream) : list byte * option error :=
  (body_data b, body_err b).

(** Reads the body, closes it on return, and builds the error. *)
Definition errMsg (buf : list byte) : string :=
  if bool_decide (maxErrLen < length buf)
  then string_of_bytes (take maxErrLen buf) +:+ "..."
  else string_of_bytes buf.

Definition processErrorResponse (req : HttpRequest) (res : Response)
  : error * list Event :=
  let '(buf, err) := io_ReadAll (resp_Body res) in
  let e :=
    match err with
    | Some err => Errorf_read_body err
    | None =>
        let msg := errMsg buf in
        if bool_decide (StatusCode res = 404%Z) then Errorf_w_s (Sentinel ErrNotExist) msg
        else if bool_decide (StatusCode res = 403%Z) then Errorf_w_s (Sentinel ErrPermission) msg
        else if bool_decide (StatusCode res = 504%Z)
             then Errorf_w_s (Sentinel ErrDeadlineExceeded) msg
        else if bool_decide (StatusCode res = 502%Z) then Errorf_w_s (Sentinel ErrInvalid) msg
        else Errorf_s_s (Status res) msg
    end in
  (e, [EvReadAll; EvClose]).

(** ** Executor *)

Section Executor.
Context `{Lib} {W : Type} `{Net W}.

(** Outcome of a run: the result, the world after it and the
    collaborator calls made, oldest first. *)
Definition Run (A : Type) : Type := W → result A * W * list Event.

Definition do_ (h : Heap) (t : Request) : Run (Response * HttpRequest) := λ w,
  match request h t with
  | Failed e => (Failed e, w, [])
  | Panic => (Panic, w, [])
  | Ok req =>
      let '(admitted, w, tr) :=
        match limiter t with
        | Some l =>
            let '(err, w) := limiter_Wait l Background w in
            (err, w, [EvWait l Background])
        | None => (None, w, [])
        end in
      match admitted with
      | Some err => (Failed err, w, tr)
      | None =>
          match client t with
          | None => (Panic, w, tr)
          | Some c =>
              let '(r, w) := client_Do c req w in
              let tr := tr ++ [EvDo c req] in
              match r with
              | Failed e => (Failed e, w, tr)
              | Panic => (Panic, w, tr)
              | Ok res =>
                  if bool_decide (400 ≤ StatusCode res)%Z
                  then let '(e, evs) := processErrorResponse req res in
                       (Failed e, w, tr ++ evs)
                  else (Ok (res, req), w, tr)
              end
          end
      end
  end.

(** [Open]: the response as a file, its body left open. *)
Definition Open (h : Heap) (t : Request) : Run file := λ w,
  match do_ h t w with
  | (Ok (res, req), w, tr) =>
      (Ok {| f_fileInfo := {| fi_url := req_URL req; fi_header := resp_Header res |};
             f_body := resp_Body res |}, w, tr)
  | (Failed e, w, tr) => (Failed e, w, tr)
  | (Panic, w, tr) => (Panic, w, tr)
  end.

(** [Stat]: close the body and keep the metadata. *)
Definition Stat (h : Heap) (t : Request) : Run fileInfo := λ w,
  match do_ h t w with
  | (Ok (res, req), w, tr) =>
      (Ok {| fi_url := req_URL req; fi_header := resp_Header res |}, w, tr ++ [EvClose])
  | (Failed e, w, tr) => (Failed e, w, tr)
  | (Panic, w, tr) => (Panic, w, tr)
  end.

(** [Err]: run the request, close a successful body, keep the error. *)
Definition Err (h : Heap) (t : Request) : Run unit := λ w,
  match do_ h t w with
  | (Ok _, w, tr) => (Ok (), w, tr ++ [EvClose])
  | (Failed e, w, tr) => (Failed e, w, tr)
  | (Panic, w, tr) => (Panic, w, tr)
  end.
End Executor.

(** ** A reference instance of the collaborators

    An executable stand-in for the Go runtime and the imported packages,
    used to run the builder on concrete inputs.  It covers the plain cases
    only: URLs of the shape [scheme://userinfo@host/path?query#fragment]
    without percent-decoding, and the JSON encoding of nil, booleans,
    integers, strings and byte slices.  No theorem about the package relies
    on it: the theorems hold for every instance of [Lib] and [Net]. *)
Module Std.

(** Growth of [append] for one more element (runtime [growslice],
    before rounding up to an allocation size class). *)
Definition growcap (c n : nat) : nat :=
  if 2 * c <? n then n
  else if c <? 256 then 2 * c
  else Nat.max n (c + (c + 768) / 4).

Definition in_range (lo hi : nat) (a : ascii) : bool :=
  (lo <=? nat_of_ascii a) && (nat_of_ascii a <=? hi).

Definition is_lower (a : ascii) : bool := in_range 97 122 a.
Definition is_upper (a : ascii) : bool := in_range 65 90 a.
Definition is_digit (a : ascii) : bool := in_range 48 57 a.
Definition is_alnum (a : ascii) : bool := is_lower a || is_upper a || is_digit a.

Definition one_of (set : string) (a : ascii) : bool :=
  existsb (Ascii.eqb a) (String.list_ascii_of_string set).

Definition all_chars (f : ascii → bool) (s : string) : bool :=
  forallb f (String.list_ascii_of_string s).

Definition to_upper (a : ascii) : ascii :=
  if is_lower a then ascii_of_nat (nat_of_ascii a - 32) else a.
Definition to_lower (a : ascii) : ascii :=
  if is_upper a then ascii_of_nat (nat_of_ascii a + 32) else a.

(** Header-field token bytes. *)
Definition is_token (a : ascii) : bool := is_alnum a || one_of "!#$%&'*+-.^_`|~" a.

Fixpoint canon (upper : bool) (s : string) : string :=
  match s with
  | EmptyString => EmptyString
  | String a s' =>
      let c := if upper then to_upper a else to_lower a in
      String c (canon (Ascii.eqb c "-") s')
  end.

Definition CanonicalHeaderKey (s : string) : string :=
  if all_chars is_token s then canon true s else s.

Definition dquote : ascii := ascii_of_nat 34.

Definition quote (s : string) : string := String dquote (s +:+ String dquote "").

Definition is_ctl (a : ascii) : bool := (nat_of_ascii a <? 32) || (nat_of_ascii a =? 127).

Definition cut_or (s sep : string) : string * string :=
  default (s, "") (strings_Cut s sep).

(** Split the authority at its last [@]. *)
Fixpoint split_userinfo (s : string) : option string * string :=
  match s with
  | EmptyString => (None, "")
  | String a s' =>
      match split_userinfo s' with
      | (Some ui, host) => (Some (String a ui), host)
      | (None, host) =>
          if Ascii.eqb a "@" then (Some "", host) else (None, String a host)
      end
  end.

Definition parse_userinfo (s : string) : Userinfo :=
  match strings_Cut s ":" with
  | Some (name, pw) => {| username := name; password := pw; passwordSet := true |}
  | None => {| username := s; password := ""; passwordSet := false |}
  end.

Definition valid_scheme (s : string) : bool :=
  match s with
  | EmptyString => false
  | String a s' =>
      (is_lower a || is_upper a) && all_chars (λ c, is_alnum c || one_of "+-." c) s'
  end.

Definition Parse (raw : string) : result URL :=
  if negb (all_chars (λ a, negb (is_ctl a)) raw)
  then Failed (errorString ("parse " +:+ quote raw
                            +:+ ": net/url: invalid control character in URL"))
  else
    let '(rest, frag) := cut_or raw "#" in
    let '(rest, rawq) := cut_or rest "?" in
    if strings_HasPrefix rest ":"
    then Failed (errorString ("parse " +:+ quote raw +:+ ": missing protocol scheme"))
    else
      match strings_Cut rest "://" with
      | Some (scheme, after) =>
          if valid_scheme scheme then
            let '(authority, path) :=
              match strings_Cut after "/" with
              | Some (a, p) => (a, "/" +:+ p)
              | None => (after, "")
              end in
            let '(ui, host) := split_userinfo authority in
            Ok {| uScheme := scheme; uOpaque := ""; uUser := parse_userinfo <$> ui;
                  uHost := host; uPath := path; uRawQuery := rawq; uFragment := frag |}
          else
            Ok {| uScheme := ""; uOpaque := ""; uUser := None; uHost := "";
                  uPath := rest; uRawQuery := rawq; uFragment := frag |}
      | None =>
          Ok {| uScheme := ""; uOpaque := ""; uUser := None; uHost := "";
                uPath := rest; uRawQuery := rawq; uFragment := frag |}
      end.

Definition Userinfo_String (ui : Userinfo) : string :=
  username ui +:+ (if passwordSet ui then ":" +:+ password ui else "").

Definition URL_String (u : URL) : string :=
  (if bool_decide (uScheme u ≠ "") then uScheme u +:+ ":" else "")
  +:+ (if bool_decide (uScheme u ≠ "" ∨ uHost u ≠ "" ∨ uUser u ≠ None)
       then (if bool_decide (uHost u ≠ "" ∨ uPath u ≠ "" ∨ uUser u ≠ None)
             then "//" else "")
            +:+ match uUser u with
                | Some ui => Userinfo_String ui +:+ "@"
                | None => ""
                end
            +:+ uHost u
       else "")
  +:+ uPath u
  +:+ (if bool_decide (uRawQuery u ≠ "") then "?" +:+ uRawQuery u else "")
  +:+ (if bool_decide (uFragment u ≠ "") then "#" +:+ uFragment u else "").

Fixpoint split_on (c : ascii) (s : string) : list string :=
  match s with
  | EmptyString => [""]
  | String a s' =>
      match split_on c s' with
      | [] => [String a ""]
      | x :: l => if Ascii.eqb a c then "" :: x :: l else String a x :: l
      end
  end.

Definition ParseQuery (q : string) : gmap string (list string) :=
  fold_left (λ m kv,
               if bool_decide (kv = "") then m
               else let '(k, v) := cut_or kv "=" in
                    <[k := default [] (m !! k) ++ [v]]> m)
    (split_on "&" q) ∅.

Definition URL_Query (u : URL) : gmap string (list string) := ParseQuery (uRawQuery u).

Definition hex (n : nat) : ascii :=
  nth n (String.list_ascii_of_string "0123456789ABCDEF") "0"%char.

Fixpoint QueryEscape (s : string) : string :=
  match s with
  | EmptyString => EmptyString
  | String a s' =>
      (if is_alnum a || one_of "-_.~" a then String a ""
       else if Ascii.eqb a " " then "+"
       else String "%" (String (hex (nat_of_ascii a / 16))
                          (String (hex (nat_of_ascii a mod 16)) "")))
      +:+ QueryEscape s'
  end.

Fixpoint insert_sorted (k : string) (l : list string) : list string :=
  match l with
  | [] => [k]
  | x :: l' => if String.leb k x then k :: l else x :: insert_sorted k l'
  end.

Definition sort_strings (l : list string) : list string :=
  fold_right insert_sorted [] l.

Definition Values_Encode (v : gmap string (list string)) : string :=
  join "&"
    (k ← sort_strings (map_to_list v).*1;
     (λ x, QueryEscape k +:+ "=" +:+ QueryEscape x) <$> default [] (v !! k)).

Definition NewRequest (method url : string) (body : list byte) : result HttpRequest :=
  let method := if bool_decide (method = "") then "GET" else method in
  if negb (all_chars is_token method)
  then Failed (errorString ("net/http: invalid method " +:+ quote method))
  else
    let? u := Parse url in
    Ok {| req_Method := method; req_URL := u; req_Header := ∅; req_Body := body;
          req_ctx := Background |}.

Definition b64 (n : nat) : ascii :=
  nth n (String.list_ascii_of_string
           "ABCDEFGHIJKLMNOPQRSTUVWXYZabcdefghijklmnopqrstuvwxyz0123456789+/") "A"%char.

Fixpoint base64 (l : list nat) : string :=
  match l with
  | [] => ""
  | [a] => String (b64 (a / 4)) (String (b64 (a mod 4 * 16)) "==")
  | [a; b] =>
      String (b64 (a / 4)) (String (b64 (a mod 4 * 16 + b / 16))
        (String (b64 (b mod 16 * 4)) "="))
  | a :: b :: c :: r =>
      String (b64 (a / 4)) (String (b64 (a mod 4 * 16 + b / 16))
        (String (b64 (b mod 16 * 4 + c / 64)) (String (b64 (c mod 64)) (base64 r))))
  end.

Fixpoint json_escape (s : string) : string :=
  match s with
  | EmptyString => EmptyString
  | String a s' =>
      (if Ascii.eqb a dquote || Ascii.eqb a "\" then String "\" (String a "")
       else String a "")
      +:+ json_escape s'
  end.

(** [VOther] stands for a value of a type the encoder rejects (a channel,
    a function). *)
Definition Marshal (v : value) : list byte * option error :=
  match v with
  | VNil => (String.list_byte_of_string "null", None)
  | VBool b => (String.list_byte_of_string (fmt_Sprint (VBool b)), None)
  | VInt n => (String.list_byte_of_string (pretty n), None)
  | VString s => (String.list_byte_of_string (quote (json_escape s)), None)
  | VBytes b => (String.list_byte_of_string (quote (base64 (Byte.to_nat <$> b))), None)
  | VOther shown =>
      ([], Some (errorString ("json: unsupported type: " +:+ shown)))
  end.

Lemma growcap_fits (c n : nat) : n ≤ growcap c n.
Proof.
  unfold growcap.
  destruct (Nat.ltb_spec (2 * c) n); [lia|].
  destruct (Nat.ltb_spec c 256); lia.
Qed.

Lemma Marshal_nil v e : (Marshal v).2 = Some e → (Marshal v).1 = [].
Proof. destruct v; simpl; congruence. Qed.

Definition lib : Lib :=
  Build_Lib growcap growcap_fits CanonicalHeaderKey Parse URL_Query URL_String
    Values_Encode NewRequest Marshal Marshal_nil.

(** A scripted world: the answers the limiter and the transport will
    give, in order. *)
Record Script := {
  waits : list (option error);
  replies : list (result Response);
}.

Definition net : Net Script :=
  Build_Net Script
    (λ _ _ w, (default None (head (waits w)),
               {| waits := tail (waits w); replies := replies w |}))
    (λ _ _ w, (default (Failed (Sentinel (ErrExternal "EOF"))) (head (replies w)),
               {| waits := waits w; replies := tail (replies w) |})).

End Std.

(** ** Vocabulary of the statements *)

(** The omission rule, on the string computed for a pair. *)
Definition omitted (s : string) : Prop := s = "" ∨ s = "0" ∨ s = "false".
Definition retained (s : string) : Prop := s ≠ "" ∧ s ≠ "0" ∧ s ≠ "false".

Definition mkPair (k : string) (vs : list value) : Pair := {| key := k; values := vs |}.

(** A slice header that fits the heap: its array is allocated with [cap]
    cells (no array is needed for capacity zero). *)
Definition slice_ok (h : Heap) (s : slice) : bool :=
  (len s <=? cap s)
  && ((cap s =? 0) || bool_decide (length <$> h !! ptr s = Some (cap s))).

(** A builder that fits the heap: both slices are allocated and do not
    share an array. *)
Definition Request_ok (h : Heap) (t : Request) : bool :=
  slice_ok h (query t) && slice_ok h (header t)
  && ((cap (query t) =? 0) || (cap (header t) =? 0)
      || negb (ptr (query t) =? ptr (header t))).

(** The pairs a chain of calls adds to the query and to the header list. *)
Definition queries_of (cs : list config) : list Pair :=
  c ← cs; match c with CQuery k vs => [mkPair k vs] | _ => [] end.

Definition headers_of `{Lib} (cs : list config) : list Pair :=
  c ← cs;
  match c with
  | CHeader k vs => [mkPair (CanonicalHeaderKey k) vs]
  | CUserAgent ua => [mkPair (CanonicalHeaderKey "User-Agent") [VString ua]]
  | CAuthorization a => [mkPair (CanonicalHeaderKey "Authorization") [VString a]]
  | _ => []
  end.

Definition sets_user (c : config) : bool :=
  match c with CUser _ => true | _ => false end.

(** The string has a [?], the mark that starts a query component. *)
Definition has_query (s : string) : Prop := In "?"%char (String.list_ascii_of_string s).

#[global] Instance retained_dec (s : string) : Decision (retained s).
Proof. unfold retained. apply _. Defined.

(** The strings that the pairs of [ps] carrying key [k] contribute, in
    the order of the pairs. *)
Definition kept_under (k : string) (ps : list Pair) : list string :=
  p ← ps; if decide (key p = k ∧ retained (effective p)) then [effective p] else [].

(** The error kind the taxonomy assigns to a status code, if any. *)
Definition kind_of (code : Z) : option sentinel :=
  if bool_decide (code = 404%Z) then Some ErrNotExist
  else if bool_decide (code = 403%Z) then Some ErrPermission
  else if bool_decide (code = 504%Z) then Some ErrDeadlineExceeded
  else if bool_decide (code = 502%Z) then Some ErrInvalid
  else None.

(** The text that stands before the body excerpt in a classified error. *)
Definition kindText (code : Z) (status : string) : string :=
  match kind_of code with
  | Some s => sentinel_msg s
  | None => status
  end.

(** A response whose body was read to the end without an error. *)
Definition response_with (status : string) (code : Z) (hd : gmap string (list string))
    (buf : list byte) : Response :=
  {| Status := status; StatusCode := code; resp_Header := hd;
     resp_Body := {| body_data := buf; body_err := None |} |}.

Definition sampleRequest : HttpRequest :=
  {| req_Method := "GET";
     req_URL := {| uScheme := "http"; uOpaque := ""; uUser := None; uHost := "localhost";
                   uPath := "/"; uRawQuery := ""; uFragment := "" |};
     req_Header := ∅; req_Body := []; req_ctx := Background |}.

Definition is_wait (ev : Event) : bool :=
  match ev with EvWait _ _ => true | _ => false end.

Definition is_dispatch (ev : Event) : bool :=
  match ev with EvDo _ _ => true | _ => false end.

Definition never_sets_user (cs : list config) : bool :=
  forallb (λ c, negb (sets_user c)) cs.

Definition jsonMime : string := "application/json; charset=utf-8".


(** The field a call assigns, for the calls that assign a field of the
    struct and leave the heap alone. *)
Inductive field := FClient | FCtx | FUser | FLimiter | FBody.

#[global] Instance field_eq_dec : EqDecision field.
Proof. solve_decision. Defined.

Definition assigns (c : config) : option field :=
  match c with
  | CClient _ => Some FClient
  | CContext _ => Some FCtx
  | CUser _ => Some FUser
  | CLimit _ => Some FLimiter
  | CBody _ _ | CForm _ | CJSON _ => Some FBody
  | CQuery _ _ | CHeader _ _ | CUserAgent _ | CAuthorization _ => None
  end.

(** What [New] keeps of a URL: the part before the first [?]. *)
Definition before_query (s : string) : string :=
  default "" (strings_SplitN_2 s "?" !! 0).

Definition is_body_event (ev : Event) : bool :=
  match ev with EvReadAll | EvClose => true | _ => false end.

(** A slice that the calls on builder [t] cannot write into: where it
    shares the array of one of [t]'s slices that has a free cell, it does
    not reach past the length of that slice. *)
Definition out_of_reach (s' : slice) (t : Request) : Prop :=
  (S (len (query t)) ≤ cap (query t) → ptr s' = ptr (query t) → len s' ≤ len (query t))
  ∧ (S (len (header t)) ≤ cap (header t) → ptr s' = ptr (header t)
     → len s' ≤ len (header t)).

(** A small upload and the request it materializes to, and scripted
    worlds, for the concrete runs. *)
Definition sample_upload : Request :=
  Body [x68%byte; x69%byte] "text/plain" (Post "/upload").

Definition sample_upload_request : HttpRequest :=
  {| req_Method := "POST";
     req_URL := {| uScheme := "http"; uOpaque := ""; uUser := None; uHost := "localhost";
                   uPath := "/upload"; uRawQuery := ""; uFragment := "" |};
     req_Header := <["Content-Type" := ["text/plain"]]> (<["Content-Length" := ["2"]]> ∅);
     req_Body := [x68%byte; x69%byte]; req_ctx := Background |}.

Definition reply_with (code : Z) (status : string) (buf : list byte) : Std.Script :=
  {| Std.waits := []; Std.replies := [Ok (response_with status code ∅ buf)] |}.

(** The values under a key once the strings [l] have been appended to
    what was there: nothing changes when there is nothing to append. *)
Definition values_after (old : option (list string)) (l : list string)
  : option (list string) :=
  match l with
  | [] => old
  | _ => Some (default [] old ++ l)
  end.

(** The sentence of the specification on retained pairs, read on the
    header of the materialized request: the string of every retained
    header pair is among the values emitted under its key. *)
Definition every_retained_header_pair_is_emitted : Prop :=
  ∀ (h : Heap) (t : Request) (req : HttpRequest) (p : Pair),
    @request Std.lib h t = Ok req →
    p ∈ elems h (header t) → retained (effective p) →
    ∃ l, req_Header req !! key p = Some l ∧ effective p ∈ l.

(** The sentence of the specification on long bodies, as it is written:
    the text of the error built for a body of more than 4096 bytes ends
    with the first 4096 bytes and the dots. *)
Definition every_long_body_is_excerpted : Prop :=
  ∀ (req : HttpRequest) (res : Response),
    4096 < length (body_data (resp_Body res)) →
    ∃ before, Error (processErrorResponse req res).1
              = before +:+ string_of_bytes (take 4096 (body_data (resp_Body res))) +:+ "...".

(** A builder whose header pair and body disagree on the content type. *)
Definition sample_typed : Request * Heap :=
  @chain Std.lib [CHeader "content-type" [VString "text/plain"];
                  CBody [x7b%byte; x7d%byte] "application/json"] (Post "/items") [].

(** A search with one blank value, one zero and one header. *)
Definition sample_search : Request * Heap :=
  @chain Std.lib [CQuery "q" [VString "  "]; CQuery "page" [VInt 0];
                  CHeader "x-id" [VInt 7]] (Get "/s") [].

Definition sample_search_request : HttpRequest :=
  {| req_Method := "GET";
     req_URL := {| uScheme := "http"; uOpaque := ""; uUser := None; uHost := "localhost";
                   uPath := "/s"; uRawQuery := "q=++"; uFragment := "" |};
     req_Header := <["X-Id" := ["7"]]> ∅;
     req_Body := []; req_ctx := Background |}.

(** * Properties *)

(** ** The omission rule and the effective value of a pair *)

Lemma omitted_test (s : string) :
  omitted s →
  bool_decide (s = "") || bool_decide (s = "0") || bool_decide (s = "false") = true.
Proof. intros [-> | [-> | ->]]; reflexivity. Qed.

Lemma retained_test (s : string) :
  retained s →
  bool_decide (s = "") || bool_decide (s = "0") || bool_decide (s = "false") = false.
Proof.
  intros (H1 & H2 & H3).
  rewrite !bool_decide_eq_false_2 by assumption. reflexivity.
Qed.

Lemma effective_snoc (k : string) (vs : list value) (v : value) :
  effective {| key := k; values := vs ++ [v] |} = toString v.
Proof. unfold effective. simpl. rewrite fold_left_app. reflexivity. Qed.

Lemma effective_last (p : Pair) :
  effective p = match last (values p) with Some v => toString v | None => "" end.
Proof.
  destruct p as [k vs]. destruct vs as [|v vs _] using rev_ind; [reflexivity|].
  rewrite effective_snoc. simpl. rewrite last_snoc. reflexivity.
Qed.

Lemma injectPairs_app (vals : gmap string (list string)) (ps1 ps2 : list Pair) :
  injectPairs vals (ps1 ++ ps2) = injectPairs (injectPairs vals ps1) ps2.
Proof.
  revert vals. induction ps1 as [|p ps1 IH]; intros vals; [reflexivity|].
  simpl. destruct (_ || _); apply IH.
Qed.

Lemma injectPairs_cons_omitted (vals : gmap string (list string)) p ps :
  omitted (effective p) → injectPairs vals (p :: ps) = injectPairs vals ps.
Proof. intros Ho. simpl. rewrite omitted_test by assumption. reflexivity. Qed.

Lemma injectPairs_cons_retained (vals : gmap string (list string)) p ps :
  retained (effective p) →
  injectPairs vals (p :: ps)
  = injectPairs (<[key p := default [] (vals !! key p) ++ [effective p]]> vals) ps.
Proof. intros Hr. simpl. rewrite retained_test by assumption. reflexivity. Qed.

(** Values already under a key are only ever extended. *)
Lemma injectPairs_extends (vals : gmap string (list string)) ps k l :
  vals !! k = Some l → ∃ l', injectPairs vals ps !! k = Some (l ++ l').
Proof.
  revert vals l. induction ps as [|p ps IH]; intros vals l Hl; simpl.
  - exists []. rewrite app_nil_r. assumption.
  - destruct (_ || _); [by apply IH|].
    destruct (decide (key p = k)) as [Heq|Hne].
    + subst k. rewrite Hl. simpl.
      set (k := key p) in *.
      destruct (IH (<[k := l ++ [effective p]]> vals) (l ++ [effective p])) as [l' Hl'].
      { apply lookup_insert_eq. }
      exists (effective p :: l'). rewrite Hl'. by rewrite <- app_assoc.
    + apply IH. rewrite lookup_insert_ne; done.
Qed.

(** A key is absent from the result exactly when it was absent before and
    every pair carrying it was omitted. *)
Lemma injectPairs_lookup_None (vals : gmap string (list string)) ps k :
  injectPairs vals ps !! k = None
  ↔ vals !! k = None ∧ Forall (λ p, key p = k → omitted (effective p)) ps.
Proof.
  revert vals. induction ps as [|p ps IH]; intros vals; simpl.
  - split; [intros ?; split; [done|constructor] | by intros [? _]].
  - destruct (bool_decide (effective p = "") || bool_decide (effective p = "0")
              || bool_decide (effective p = "false")) eqn:E.
    + rewrite IH. split; intros [Hv Hf]; split; try done.
      * constructor; [|done]. intros _.
        unfold omitted. repeat (apply orb_prop in E as [E|E]);
          apply bool_decide_eq_true_1 in E; auto.
      * by inversion Hf.
    + rewrite IH. split.
      * intros [Hv Hf]. destruct (decide (key p = k)) as [Heq|Hne].
        { subst k. by rewrite lookup_insert_eq in Hv. }
        rewrite lookup_insert_ne in Hv by done. split; [done|].
        constructor; [done|done].
      * intros [Hv Hf]. inversion Hf as [|? ? Hp Hps]; subst.
        destruct (decide (key p = k)) as [Heq|Hne].
        { destruct (Hp Heq) as [Hs|[Hs|Hs]]; rewrite Hs in E; discriminate E. }
        rewrite lookup_insert_ne by done. done.
Qed.

Lemma retained_not_omitted (s : string) : retained s ↔ ¬ omitted s.
Proof.
  unfold retained, omitted. split; [tauto|]. intros Hn.
  repeat split; intros ->; apply Hn; auto.
Qed.

Lemma omitted_or_retained (s : string) : omitted s ∨ retained s.
Proof.
  destruct (decide (retained s)) as [Hr|Hn]; [by right|left].
  unfold retained, omitted in *.
  destruct (decide (s = "")); [auto|]. destruct (decide (s = "0")); [auto|].
  destruct (decide (s = "false")); [auto|]. tauto.
Qed.

Lemma kept_under_cons (k : string) (p : Pair) (ps : list Pair) :
  kept_under k (p :: ps)
  = (if decide (key p = k ∧ retained (effective p)) then [effective p] else [])
    ++ kept_under k ps.
Proof. reflexivity. Qed.

(** What [injectPairs] leaves under a key: the values that were there,
    followed by the retained strings of the pairs with that key. *)
Lemma injectPairs_lookup (vals : gmap string (list string)) (ps : list Pair) (k : string) :
  injectPairs vals ps !! k
  = match kept_under k ps with
    | [] => vals !! k
    | l => Some (default [] (vals !! k) ++ l)
    end.
Proof.
  revert vals. induction ps as [|p ps IH]; intros vals; [reflexivity|].
  rewrite kept_under_cons. simpl injectPairs.
  destruct (omitted_or_retained (effective p)) as [Ho|Hr].
  - rewrite omitted_test by exact Ho.
    rewrite decide_False by (rewrite retained_not_omitted; tauto).
    simpl. apply IH.
  - rewrite retained_test by exact Hr. rewrite IH.
    destruct (decide (key p = k)) as [Hk|Hk].
    + rewrite decide_True by done. rewrite Hk, lookup_insert_eq. simpl.
      destruct (kept_under k ps); [reflexivity|].
      by rewrite <- app_assoc.
    + rewrite decide_False by tauto. rewrite lookup_insert_ne by done. reflexivity.
Qed.

Lemma kept_under_app (k : string) (ps1 ps2 : list Pair) :
  kept_under k (ps1 ++ ps2) = kept_under k ps1 ++ kept_under k ps2.
Proof. unfold kept_under. apply bind_app. Qed.

Lemma kept_under_retained (k : string) (vs : list value) :
  retained (effective (mkPair k vs)) →
  kept_under k [mkPair k vs] = [effective (mkPair k vs)].
Proof. intros Hr. unfold kept_under. simpl. rewrite decide_True by done. reflexivity. Qed.

(** ** The claims on pairs *)

(** The omission rule on the merged map.  A pair whose string is empty,
    [0] or [false] changes nothing: the merged map is the one obtained
    without the pair.  A pair with any other string, blanks included,
    has that string appended after the values already under its key, and
    the string is still there after the later pairs.  A key is absent
    from the result exactly when it was absent before and all the pairs
    carrying it were omitted. *)
Theorem injectPairs_omission_rule (vals : gmap string (list string))
    (ps1 ps2 : list Pair) (p : Pair) :
  (omitted (effective p) →
     injectPairs vals (ps1 ++ p :: ps2) = injectPairs vals (ps1 ++ ps2))
  ∧ (retained (effective p) →
     injectPairs vals (ps1 ++ p :: ps2)
     = injectPairs (<[key p := default [] (injectPairs vals ps1 !! key p) ++ [effective p]]>
                      (injectPairs vals ps1)) ps2
     ∧ ∃ later, injectPairs vals (ps1 ++ p :: ps2) !! key p
                = Some (default [] (injectPairs vals ps1 !! key p) ++ effective p :: later))
  ∧ (∀ k, injectPairs vals (ps1 ++ p :: ps2) !! k = None
          ↔ vals !! k = None
            ∧ Forall (λ q, key q = k → omitted (effective q)) (ps1 ++ p :: ps2))
  ∧ omitted (toString (VInt 0)) ∧ omitted (toString (VBool false))
  ∧ omitted (toString (VString "")) ∧ omitted (toString (VBytes []))
  ∧ retained (toString (VString "  "))
  ∧ injectPairs ∅ [mkPair "a" [VInt 0]; mkPair "b" [VString "  "]; mkPair "c" [VBool false];
                   mkPair "d" [VString ""]]
    = {["b" := ["  "]]}.
Proof.
  split; [|split; [|split]].
  - intros Ho. rewrite !injectPairs_app. by apply injectPairs_cons_omitted.
  - intros Hr. rewrite injectPairs_app, injectPairs_cons_retained by assumption.
    split; [reflexivity|].
    destruct (injectPairs_extends
                (<[key p := default [] (injectPairs vals ps1 !! key p) ++ [effective p]]>
                   (injectPairs vals ps1)) ps2 (key p)
                (default [] (injectPairs vals ps1 !! key p) ++ [effective p]))
      as [later Hl]; [apply lookup_insert_eq|].
    exists later. rewrite Hl, <- app_assoc. reflexivity.
  - intros k. apply injectPairs_lookup_None.
  - unfold omitted, retained. simpl.
    repeat split; auto; try discriminate.
Qed.

Lemma injectPairs_omission_rule_witness :
  injectPairs ∅ ([mkPair "a" [VString "x"]] ++ mkPair "n" [VInt 0] :: [mkPair "b" [VBool true]])
  = injectPairs ∅ ([mkPair "a" [VString "x"]] ++ [mkPair "b" [VBool true]])
  ∧ ∃ later,
      injectPairs ∅ ([mkPair "a" [VString "x"]] ++ mkPair "a" [VString "  "] :: []) !! "a"
      = Some (default [] (injectPairs ∅ [mkPair "a" [VString "x"]] !! "a") ++ "  " :: later).
Proof.
  split.
  - apply (proj1 (injectPairs_omission_rule ∅ [mkPair "a" [VString "x"]]
                    [mkPair "b" [VBool true]] (mkPair "n" [VInt 0]))).
    right; left; reflexivity.
  - apply (proj1 (proj2 (injectPairs_omission_rule ∅ [mkPair "a" [VString "x"]]
                    [] (mkPair "a" [VString "  "])))).
    repeat split; discriminate.
Defined.

(** C6. Of the candidates of a pair only the last one counts: the
    string of the pair is the conversion of the last candidate, the
    merged map is the one obtained from the pair with that candidate
    alone, and the omission rule looks at that string only. *)
Theorem injectPairs_last_candidate (vals : gmap string (list string))
    (ps1 ps2 : list Pair) (k : string) (vs : list value) (v : value) :
  effective (mkPair k (vs ++ [v])) = toString v
  ∧ injectPairs vals (ps1 ++ mkPair k (vs ++ [v]) :: ps2)
    = injectPairs vals (ps1 ++ mkPair k [v] :: ps2)
  ∧ (omitted (toString v) →
     injectPairs vals (ps1 ++ mkPair k (vs ++ [v]) :: ps2) = injectPairs vals (ps1 ++ ps2))
  ∧ injectPairs ∅ [mkPair "k" [VString "a"; VString "b"; VInt 7]] = {["k" := ["7"]]}
  ∧ injectPairs ∅ [mkPair "k" [VString "a"; VInt 0]] = ∅.
Proof.
  assert (He : effective (mkPair k (vs ++ [v])) = toString v) by apply effective_snoc.
  split; [exact He|]. split; [|split].
  - rewrite !injectPairs_app. simpl. rewrite He. reflexivity.
  - intros Ho. rewrite !injectPairs_app. apply injectPairs_cons_omitted.
    rewrite He. exact Ho.
  - split; reflexivity.
Qed.

Lemma injectPairs_last_candidate_witness :
  injectPairs ∅ ([] ++ mkPair "k" ([VString "a"] ++ [VInt 0]) :: []) = injectPairs ∅ ([] ++ []).
Proof.
  apply (proj1 (proj2 (proj2 (injectPairs_last_candidate ∅ [] [] "k" [VString "a"] (VInt 0))))).
  right; left; reflexivity.
Defined.

(** ** Slices and [append] *)

Lemma slice_ok_spec (h : Heap) (s : slice) :
  slice_ok h s = true
  ↔ len s ≤ cap s ∧ (cap s = 0 ∨ ∃ arr, h !! ptr s = Some arr ∧ length arr = cap s).
Proof.
  unfold slice_ok. rewrite andb_true_iff, orb_true_iff, Nat.leb_le, Nat.eqb_eq.
  rewrite bool_decide_eq_true. split; intros [Hl Hc]; (split; [exact Hl|]).
  - destruct Hc as [Hc|Hc]; [left; exact Hc|right].
    destruct (h !! ptr s) as [arr|]; simpl in Hc; [|discriminate].
    exists arr. split; [reflexivity|congruence].
  - destruct Hc as [Hc|(arr & Ha & Hlen)]; [left; exact Hc|right].
    rewrite Ha. simpl. congruence.
Qed.

Lemma elems_length (h : Heap) (s : slice) :
  slice_ok h s = true → length (elems h s) = len s.
Proof.
  rewrite slice_ok_spec. intros [Hl [Hc|(arr & Ha & Hlen)]]; unfold elems.
  - assert (len s = 0) as -> by lia. reflexivity.
  - rewrite Ha. simpl. rewrite length_take. lia.
Qed.

Section Append.
Context `{Lib}.

(** The appended slice shows the old elements followed by the new one. *)
Lemma append_elems (h : Heap) (s : slice) (x : Pair) :
  slice_ok h s = true →
  elems (append s x h).2 (append s x h).1 = elems h s ++ [x].
Proof.
  intros Hok. pose proof (elems_length h s Hok) as Hlen.
  apply slice_ok_spec in Hok as [Hl Hc]. unfold append.
  destruct (decide (S (len s) ≤ cap s)) as [Hroom|Hfull]; simpl.
  - destruct Hc as [Hc|(arr & Ha & Harr)]; [lia|].
    unfold elems in *. simpl. rewrite list_lookup_alter_eq. rewrite Ha in *. simpl in *.
    rewrite (take_S_r _ _ x) by (apply list_lookup_insert_eq; lia).
    rewrite take_insert_ge by lia. reflexivity.
  - unfold elems at 1. simpl.
    rewrite lookup_app_r, Nat.sub_diag by lia. simpl.
    rewrite cons_middle, app_assoc.
    apply take_app_length'. rewrite length_app, Hlen. simpl. lia.
Qed.

Lemma append_ok_new (h : Heap) (s : slice) (x : Pair) :
  slice_ok h s = true → slice_ok (append s x h).2 (append s x h).1 = true.
Proof.
  intros Hok. pose proof (elems_length h s Hok) as Hlen.
  apply slice_ok_spec in Hok as [Hl Hc]. apply slice_ok_spec. unfold append.
  destruct (decide (S (len s) ≤ cap s)) as [Hroom|Hfull]; simpl.
  - split; [lia|]. destruct Hc as [Hc|(arr & Ha & Harr)]; [lia|]. right.
    exists (<[len s := x]> arr). rewrite list_lookup_alter_eq, Ha, length_insert. done.
  - pose proof (growcap_fits (cap s) (S (len s))) as Hg.
    split; [exact Hg|]. right. eexists. rewrite lookup_app_r, Nat.sub_diag by lia.
    split; [reflexivity|].
    rewrite length_app, Hlen. simpl. rewrite length_replicate. lia.
Qed.

(** Slices that were allocated stay allocated. *)
Lemma append_ok_old (h : Heap) (s s' : slice) (x : Pair) :
  slice_ok h s' = true → slice_ok (append s x h).2 s' = true.
Proof.
  rewrite !slice_ok_spec. intros [Hl Hc]. split; [exact Hl|].
  destruct Hc as [Hc|(arr & Ha & Harr)]; [left; exact Hc|right].
  unfold append. destruct (decide (S (len s) ≤ cap s)) as [Hroom|Hfull]; simpl.
  - rewrite list_lookup_alter. destruct (decide (ptr s = ptr s')) as [Heq|Hne].
    + rewrite Heq, Ha. simpl. eexists. split; [reflexivity|]. by rewrite length_insert.
    + exists arr. done.
  - exists arr. split; [|done]. apply lookup_app_l_Some. exact Ha.
Qed.

(** [append] leaves alone what another slice shows, unless that slice
    shares the array and reaches past the length of the appended one. *)
Lemma append_frame (h : Heap) (s s' : slice) (x : Pair) :
  slice_ok h s' = true →
  (ptr s' = ptr s → len s' ≤ len s) →
  elems (append s x h).2 s' = elems h s'.
Proof.
  rewrite slice_ok_spec. intros [Hl Hc] Hshare. unfold elems.
  destruct Hc as [Hc|(arr & Ha & Harr)].
  { assert (len s' = 0) as -> by lia. reflexivity. }
  unfold append. destruct (decide (S (len s) ≤ cap s)) as [Hroom|Hfull]; simpl.
  - rewrite list_lookup_alter. destruct (decide (ptr s = ptr s')) as [Heq|Hne].
    + rewrite Heq, Ha. simpl. apply take_insert_ge. auto.
    + reflexivity.
  - rewrite (lookup_app_l_Some _ _ _ _ Ha), Ha. reflexivity.
Qed.

(** In particular the slice that was appended to still shows the same
    elements. *)
Lemma append_receiver (h : Heap) (s : slice) (x : Pair) :
  slice_ok h s = true → elems (append s x h).2 s = elems h s.
Proof. intros Hok. apply append_frame; [exact Hok|lia]. Qed.
End Append.

(** ** Configuration calls on a well-formed heap *)

Lemma Request_ok_spec (h : Heap) (t : Request) :
  Request_ok h t = true
  ↔ slice_ok h (query t) = true ∧ slice_ok h (header t) = true
    ∧ (cap (query t) = 0 ∨ cap (header t) = 0 ∨ ptr (query t) ≠ ptr (header t)).
Proof.
  unfold Request_ok.
  rewrite !andb_true_iff, !orb_true_iff, negb_true_iff, !Nat.eqb_eq, Nat.eqb_neq.
  tauto.
Qed.

Lemma New_ok (h : Heap) (m u : string) : Request_ok h (New m u) = true.
Proof. reflexivity. Qed.

Section Builder.
Context `{Lib}.

(** An allocated slice points below the end of the heap, so a freshly
    allocated array is not its array. *)
Lemma slice_ok_ptr (h : Heap) (s : slice) :
  slice_ok h s = true → cap s = 0 ∨ ptr s < length h.
Proof.
  rewrite slice_ok_spec. intros [_ [Hc|(arr & Ha & _)]]; [left; exact Hc|right].
  eapply lookup_lt_Some, Ha.
Qed.

Lemma append_ptr (h : Heap) (s : slice) (x : Pair) :
  ptr (append s x h).1 = ptr s ∨ ptr (append s x h).1 = length h.
Proof. unfold append. destruct (decide _); simpl; auto. Qed.

Lemma append_cap_pos (h : Heap) (s : slice) (x : Pair) :
  slice_ok h s = true → 0 < cap (append s x h).1.
Proof.
  intros Hok. apply (append_ok_new h s x), slice_ok_spec in Hok as [Hl _].
  assert (len (append s x h).1 = S (len s)); [|lia].
  unfold append. destruct (decide _); reflexivity.
Qed.

(** Appending to one of the two slices of a builder leaves the other
    slice of the same builder as it was. *)
Lemma append_other (h : Heap) (s s' : slice) (x : Pair) :
  slice_ok h s' = true →
  cap s = 0 ∨ cap s' = 0 ∨ ptr s ≠ ptr s' →
  elems (append s x h).2 s' = elems h s'.
Proof.
  intros Hok Hd. destruct (decide (cap s' = 0)) as [Hz|Hnz].
  { apply slice_ok_spec in Hok as [Hl _]. unfold elems.
    assert (len s' = 0) as -> by lia. reflexivity. }
  destruct (decide (cap s = 0)) as [Hs|Hs].
  - apply slice_ok_spec in Hok as [Hl [Hc|(arr & Ha & Harr)]]; [lia|].
    unfold append, elems. destruct (decide _) as [Hroom|Hfull]; [lia|]. simpl.
    rewrite (lookup_app_l_Some _ _ _ _ Ha), Ha. reflexivity.
  - apply append_frame; [exact Hok|]. intros Heq. destruct Hd as [?|[?|?]]; congruence.
Qed.

Lemma Query_ok (h : Heap) (t : Request) (k : string) (vs : list value) :
  Request_ok h t = true → Request_ok (Query k vs t h).2 (Query k vs t h).1 = true.
Proof.
  rewrite !Request_ok_spec. intros (Hq & Hh & Hd). unfold Query.
  pose proof (append_ok_new h (query t) (mkPair k vs) Hq) as Hn.
  pose proof (append_ok_old h (query t) (header t) (mkPair k vs) Hh) as Ho.
  pose proof (append_ptr h (query t) (mkPair k vs)) as Hp.
  pose proof (slice_ok_ptr h _ Hh) as Hhp.
  unfold mkPair in *. destruct (append (query t) _ h) as [q h'] eqn:E. simpl in *.
  split; [exact Hn|]. split; [exact Ho|].
  destruct Hhp as [Hz|Hlt]; [auto|].
  destruct Hp as [Hp|Hp]; [|right; right; lia].
  destruct Hd as [Hc|[Hc|Hne]]; [|auto|right; right; congruence].
  (* the query slice was nil: its array is fresh *)
  right; right. unfold append in E.
  destruct (decide _) as [Hroom|Hfull]; [lia|]. inversion E; subst; simpl in *. lia.
Qed.

Lemma Header_ok (h : Heap) (t : Request) (k : string) (vs : list value) :
  Request_ok h t = true → Request_ok (Header k vs t h).2 (Header k vs t h).1 = true.
Proof.
  rewrite !Request_ok_spec. intros (Hq & Hh & Hd). unfold Header.
  set (x := {| key := CanonicalHeaderKey k; values := vs |}).
  pose proof (append_ok_new h (header t) x Hh) as Hn.
  pose proof (append_ok_old h (header t) (query t) x Hq) as Ho.
  pose proof (append_ptr h (header t) x) as Hp.
  pose proof (slice_ok_ptr h _ Hq) as Hqp.
  destruct (append (header t) x h) as [q h'] eqn:E. simpl in *.
  split; [exact Ho|]. split; [exact Hn|].
  destruct Hqp as [Hz|Hlt]; [auto|].
  destruct Hp as [Hp|Hp]; [|right; right; lia].
  destruct Hd as [Hc|[Hc|Hne]]; [auto| |right; right; congruence].
  right; right. unfold append in E.
  destruct (decide _) as [Hroom|Hfull]; [lia|]. inversion E; subst; simpl in *. lia.
Qed.

Lemma call_ok (c : config) (h : Heap) (t : Request) :
  Request_ok h t = true → Request_ok (call c t h).2 (call c t h).1 = true.
Proof.
  destruct c; simpl; try (intros Hok; exact Hok);
    try apply Query_ok; try apply Header_ok.
  intros Hok. unfold JSON. destruct (json_Marshal v). exact Hok.
Qed.

Lemma chain_ok (cs : list config) (h : Heap) (t : Request) :
  Request_ok h t = true → Request_ok (chain cs t h).2 (chain cs t h).1 = true.
Proof.
  revert t h. induction cs as [|c cs IH]; intros t h Hok; [exact Hok|].
  simpl. pose proof (call_ok c h t Hok) as Hc.
  destruct (call c t h) as [t' h']. apply IH, Hc.
Qed.
End Builder.

Section Chain.
Context `{Lib}.

Lemma Query_query (h : Heap) (t : Request) (k : string) (vs : list value) :
  Request_ok h t = true →
  elems (Query k vs t h).2 (query (Query k vs t h).1) = elems h (query t) ++ [mkPair k vs].
Proof.
  rewrite Request_ok_spec. intros (Hq & _). unfold Query.
  pose proof (append_elems h (query t) (mkPair k vs) Hq) as He. unfold mkPair in *.
  destruct (append (query t) _ h) as [q h']. exact He.
Qed.

Lemma Query_header (h : Heap) (t : Request) (k : string) (vs : list value) :
  Request_ok h t = true →
  elems (Query k vs t h).2 (header (Query k vs t h).1) = elems h (header t).
Proof.
  rewrite Request_ok_spec. intros (_ & Hh & Hd). unfold Query.
  pose proof (append_other h (query t) (header t) (mkPair k vs) Hh Hd) as He.
  unfold mkPair in *. destruct (append (query t) _ h) as [q h']. exact He.
Qed.

Lemma Header_header (h : Heap) (t : Request) (k : string) (vs : list value) :
  Request_ok h t = true →
  elems (Header k vs t h).2 (header (Header k vs t h).1)
  = elems h (header t) ++ [mkPair (CanonicalHeaderKey k) vs].
Proof.
  rewrite Request_ok_spec. intros (_ & Hh & _). unfold Header.
  pose proof (append_elems h (header t) (mkPair (CanonicalHeaderKey k) vs) Hh) as He.
  unfold mkPair in *. destruct (append (header t) _ h) as [q h']. exact He.
Qed.

Lemma Header_query (h : Heap) (t : Request) (k : string) (vs : list value) :
  Request_ok h t = true →
  elems (Header k vs t h).2 (query (Header k vs t h).1) = elems h (query t).
Proof.
  rewrite Request_ok_spec. intros (Hq & _ & Hd). unfold Header.
  assert (cap (header t) = 0 ∨ cap (query t) = 0 ∨ ptr (header t) ≠ ptr (query t)) as Hd'
    by (destruct Hd as [?|[?|?]]; auto).
  pose proof (append_other h (header t) (query t)
                (mkPair (CanonicalHeaderKey k) vs) Hq Hd') as He.
  unfold mkPair in *. destruct (append (header t) _ h) as [q h']. exact He.
Qed.

Lemma call_query (c : config) (h : Heap) (t : Request) :
  Request_ok h t = true →
  elems (call c t h).2 (query (call c t h).1) = elems h (query t) ++ queries_of [c].
Proof.
  intros Hok. destruct c; simpl; rewrite ?app_nil_r; try reflexivity;
    try (by apply Query_query); try (by apply Header_query).
  unfold JSON. destruct (json_Marshal v). reflexivity.
Qed.

Lemma call_header (c : config) (h : Heap) (t : Request) :
  Request_ok h t = true →
  elems (call c t h).2 (header (call c t h).1) = elems h (header t) ++ headers_of [c].
Proof.
  intros Hok. destruct c; simpl; rewrite ?app_nil_r; try reflexivity;
    try (by apply Query_header); try (by apply Header_header).
  unfold JSON. destruct (json_Marshal v). reflexivity.
Qed.

(** A chain of calls shows, in order, the pairs of its [Query] calls
    after those of the builder it started from; likewise for headers. *)
Lemma chain_query (cs : list config) (h : Heap) (t : Request) :
  Request_ok h t = true →
  elems (chain cs t h).2 (query (chain cs t h).1) = elems h (query t) ++ queries_of cs.
Proof.
  revert t h. induction cs as [|c cs IH]; intros t h Hok; simpl.
  - by rewrite app_nil_r.
  - pose proof (call_ok c h t Hok) as Hc. pose proof (call_query c h t Hok) as Hq.
    destruct (call c t h) as [t' h']. simpl in *.
    rewrite IH, Hq by exact Hc. rewrite <- app_assoc. f_equal.
    unfold queries_of. simpl. by rewrite app_nil_r.
Qed.

Lemma chain_header (cs : list config) (h : Heap) (t : Request) :
  Request_ok h t = true →
  elems (chain cs t h).2 (header (chain cs t h).1) = elems h (header t) ++ headers_of cs.
Proof.
  revert t h. induction cs as [|c cs IH]; intros t h Hok; simpl.
  - by rewrite app_nil_r.
  - pose proof (call_ok c h t Hok) as Hc. pose proof (call_header c h t Hok) as Hq.
    destruct (call c t h) as [t' h']. simpl in *.
    rewrite IH, Hq by exact Hc. rewrite <- app_assoc. f_equal.
    unfold headers_of. simpl. by rewrite app_nil_r.
Qed.

Lemma chain_app (cs1 cs2 : list config) (h : Heap) (t : Request) :
  chain (cs1 ++ cs2) t h = chain cs2 (chain cs1 t h).1 (chain cs1 t h).2.
Proof.
  revert t h. induction cs1 as [|c cs1 IH]; intros t h; simpl; [reflexivity|].
  destruct (call c t h) as [t' h']. apply IH.
Qed.

(** The receiver of a call shows the same pairs after the call. *)
Lemma call_receiver (c : config) (h : Heap) (t : Request) :
  Request_ok h t = true →
  elems (call c t h).2 (query t) = elems h (query t)
  ∧ elems (call c t h).2 (header t) = elems h (header t).
Proof.
  rewrite Request_ok_spec. intros (Hq & Hh & Hd).
  assert (cap (header t) = 0 ∨ cap (query t) = 0 ∨ ptr (header t) ≠ ptr (query t)) as Hd'
    by (destruct Hd as [?|[?|?]]; auto).
  assert (∀ x, elems (append (query t) x h).2 (query t) = elems h (query t)
               ∧ elems (append (query t) x h).2 (header t) = elems h (header t)) as HQ.
  { intros x. split; [by apply append_receiver|by apply append_other]. }
  assert (∀ x, elems (append (header t) x h).2 (query t) = elems h (query t)
               ∧ elems (append (header t) x h).2 (header t) = elems h (header t)) as HH.
  { intros x. split; [by apply append_other|by apply append_receiver]. }
  destruct c; simpl; try (split; reflexivity);
    unfold UserAgent, Authorization, Query, Header;
    try (match goal with
         | |- context [append (query t) ?x h] =>
             specialize (HQ x); destruct (append (query t) x h); exact HQ
         | |- context [append (header t) ?x h] =>
             specialize (HH x); destruct (append (header t) x h); exact HH
         end).
Qed.
End Chain.

(** ** The constructor *)

Lemma substring_all (s : string) : String.substring 0 (String.length s) s = s.
Proof. induction s as [|a s IH]; simpl; [reflexivity|by rewrite IH]. Qed.

Lemma append_empty_r (s : string) : s +:+ "" = s.
Proof.
  induction s as [|a s IH]; [reflexivity|].
  change (String a (s +:+ "") = String a s). by rewrite IH.
Qed.

Lemma strings_Cut_char (c : ascii) (s : string) :
  match strings_Cut s (String c "") with
  | Some (before, after) =>
      s = before +:+ String c after ∧ ¬ In c (String.list_ascii_of_string before)
  | None => ¬ In c (String.list_ascii_of_string s)
  end.
Proof.
  induction s as [|a s IH]; simpl; [intros []|].
  destruct (ascii_dec c a) as [->|Hne].
  - assert (String.prefix "" s = true) as -> by (destruct s; reflexivity).
    rewrite Nat.sub_0_r, substring_all. simpl. tauto.
  - destruct (strings_Cut s (String c "")) as [[before after]|]; simpl.
    + destruct IH as [-> Hn]. split; [reflexivity|]. intros [?|?]; [congruence|tauto].
    + intros [?|?]; [congruence|tauto].
Qed.

(** C3. [New] rewrites a URL that starts with [/] or [:] to
    [http://localhost] followed by the URL, and keeps of the result only
    what stands before the first [?]: the stored URL has no query
    component and is the rewritten URL up to that mark.  The base URL
    [/foo?x=1] becomes [http://localhost/foo], and the request materialized
    from it carries no query. *)
Theorem New_normalizes_url (m u : string) :
  let full := if strings_HasPrefix u "/" || strings_HasPrefix u ":"
              then "http://localhost" +:+ u else u in
  method (New m u) = m
  ∧ ¬ has_query (url (New m u))
  ∧ (∃ rest, full = url (New m u) +:+ rest ∧ (rest = "" ∨ ∃ q, rest = String "?" q))
  ∧ url (New "GET" "/foo?x=1") = "http://localhost/foo"
  ∧ url (New "GET" ":8080/foo?x=1") = "http://localhost:8080/foo"
  ∧ url (New "GET" "http://example.com/a?x=1&y=2") = "http://example.com/a"
  ∧ (req_URL <$> (match @request Std.lib [] (New "GET" "/foo?x=1") with
                  | Ok req => Some req
                  | _ => None
                  end))
    = Some {| uScheme := "http"; uOpaque := ""; uUser := None; uHost := "localhost";
              uPath := "/foo"; uRawQuery := ""; uFragment := "" |}.
Proof.
  intros full.
  assert (¬ has_query (url (New m u))
          ∧ ∃ rest, full = url (New m u) +:+ rest ∧ (rest = "" ∨ ∃ q, rest = String "?" q))
    as [Hno Hrest].
  { assert (url (New m u) = default "" (strings_SplitN_2 full "?" !! 0)) as -> by reflexivity.
    unfold strings_SplitN_2, has_query.
    pose proof (strings_Cut_char "?" full) as Hc. clearbody full.
    destruct (strings_Cut full "?") as [[before after]|]; simpl.
    - destruct Hc as [Hf Hn]. split; [exact Hn|].
      exists (String "?" after). split; [exact Hf|right; eauto].
    - split; [exact Hc|]. exists "". split; [|by left]. symmetry. apply append_empty_r. }
  split; [reflexivity|]. split; [exact Hno|]. split; [exact Hrest|].
  vm_compute. repeat split; reflexivity.
Qed.

(** The earlier revision of [New] keeps an embedded query. *)
Example Earlier_New_keeps_query :
  url (Earlier.New "GET" "/foo?x=1") = "http://localhost/foo?x=1".
Proof. reflexivity. Qed.

(** ** Copies of a builder and the arrays they share *)

Section Sharing.
Context `{Lib}.

Lemma append_in_place (h : Heap) (s : slice) (x : Pair) :
  S (len s) ≤ cap s →
  (append s x h).1 = {| ptr := ptr s; len := S (len s); cap := cap s |}.
Proof. intros Hroom. unfold append. destruct (decide _); [reflexivity|lia]. Qed.

(** X12. Two [Query] calls on one receiver whose array has a free cell
    write the same cell: the builder returned by the first call then
    shows the pair of the second. *)
Lemma Query_siblings_overwrite (h : Heap) (t : Request) (k1 k2 : string)
    (vs1 vs2 : list value) :
  Request_ok h t = true →
  len (query t) < cap (query t) →
  let r1 := Query k1 vs1 t h in
  let r2 := Query k2 vs2 t r1.2 in
  elems r1.2 (query r1.1) = elems h (query t) ++ [mkPair k1 vs1]
  ∧ elems r2.2 (query r1.1) = elems h (query t) ++ [mkPair k2 vs2]
  ∧ elems r2.2 (query r2.1) = elems h (query t) ++ [mkPair k2 vs2].
Proof.
  intros Hok Hroom r1 r2.
  pose proof (Query_query h t k1 vs1 Hok) as H1. split; [exact H1|].
  apply Request_ok_spec in Hok as (Hq & _).
  subst r1 r2. unfold Query in *.
  pose proof (append_in_place h (query t) (mkPair k1 vs1) Hroom) as Hs1.
  pose proof (append_receiver h (query t) (mkPair k1 vs1) Hq) as Hr1.
  pose proof (append_ok_old h (query t) (query t) (mkPair k1 vs1) Hq) as Hq1.
  unfold mkPair in *. destruct (append (query t) _ h) as [q1 h1]. simpl in *.
  pose proof (append_in_place h1 (query t) (mkPair k2 vs2) Hroom) as Hs2.
  pose proof (append_elems h1 (query t) (mkPair k2 vs2) Hq1) as He2.
  unfold mkPair in *. destruct (append (query t) _ h1) as [q2 h2]. simpl in *.
  rewrite Hr1 in He2. subst q1 q2. split; exact He2.
Qed.
End Sharing.

(** C1. The configuration calls copy the receiver's struct, but [Query]
    and [Header] append to a slice whose array the copies share.  After
    three [Query] calls the array has four cells and three pairs; two
    further [Query] calls on that same builder both write the fourth cell,
    so the builder returned by the first of them shows, once the second
    has run, the pair of the second: its materialized query changes from
    [a=1&b=2&c=3&x=1] to [a=1&b=2&c=3&y=2]. *)
Theorem Query_siblings_share_array :
  let r := @chain Std.lib [CQuery "a" [VInt 1]; CQuery "b" [VInt 2]; CQuery "c" [VInt 3]]
             (Get "/") [] in
  let r1 := @Query Std.lib "x" [VInt 1] r.1 r.2 in
  let r2 := @Query Std.lib "y" [VInt 2] r.1 r1.2 in
  query r.1 = {| ptr := 2; len := 3; cap := 4 |}
  ∧ elems r1.2 (query r1.1)
    = [mkPair "a" [VInt 1]; mkPair "b" [VInt 2]; mkPair "c" [VInt 3]; mkPair "x" [VInt 1]]
  ∧ elems r2.2 (query r1.1)
    = [mkPair "a" [VInt 1]; mkPair "b" [VInt 2]; mkPair "c" [VInt 3]; mkPair "y" [VInt 2]]
  ∧ elems r2.2 (query r.1) = elems r.2 (query r.1)
  ∧ (uRawQuery <$> (match @request_url Std.lib r1.2 r1.1 with Ok u => Some u | _ => None end))
    = Some "a=1&b=2&c=3&x=1"
  ∧ (uRawQuery <$> (match @request_url Std.lib r2.2 r1.1 with Ok u => Some u | _ => None end))
    = Some "a=1&b=2&c=3&y=2".
Proof. vm_compute. repeat split; reflexivity. Qed.

(** ** Repeated keys *)

(** X26. In one chain of calls, two [Query] calls with the same key,
    with any other calls of the chain in between, both retained by the
    omission rule: the builder shows the two pairs in the order of the
    calls, and the values merged under the key are those that were
    there, then the value of the first call, then what the calls in
    between contribute under the key, then the value of the second
    call.  The URL handed on by the materializer carries the encoding of
    that merged map. *)
Theorem Query_same_key_appends `{Lib} (h : Heap) (t : Request) (k : string)
    (vs1 vs2 : list value) (cs : list config) (vals : gmap string (list string)) :
  Request_ok h t = true →
  retained (effective (mkPair k vs1)) →
  retained (effective (mkPair k vs2)) →
  let r := chain (CQuery k vs1 :: cs ++ [CQuery k vs2]) t h in
  let ps := elems h (query t) ++ mkPair k vs1 :: queries_of cs ++ [mkPair k vs2] in
  elems r.2 (query r.1) = ps
  ∧ injectPairs vals ps !! k
    = Some (default [] (injectPairs vals (elems h (query t)) !! k)
            ++ effective (mkPair k vs1) :: kept_under k (queries_of cs)
            ++ [effective (mkPair k vs2)])
  ∧ request_url r.2 r.1
    = (let? u := url_Parse (url r.1) in
       let rawQuery := Values_Encode (injectPairs (URL_Query u) ps) in
       Ok (set_User (if bool_decide (rawQuery ≠ "") then set_RawQuery u rawQuery else u)
             (user r.1))).
Proof.
  intros Hok Hr1 Hr2 r ps.
  assert (elems r.2 (query r.1) = ps) as Hps.
  { subst r ps. rewrite chain_query by exact Hok. f_equal.
    unfold queries_of. simpl.
    rewrite bind_app. simpl. reflexivity. }
  split; [exact Hps|]. split.
  - subst ps. rewrite injectPairs_app, injectPairs_lookup.
    change (mkPair k vs1 :: queries_of cs ++ [mkPair k vs2])
      with ([mkPair k vs1] ++ queries_of cs ++ [mkPair k vs2]).
    rewrite !kept_under_app, !kept_under_retained by assumption. reflexivity.
  - unfold request_url. rewrite Hps. reflexivity.
Qed.

Lemma Query_same_key_appends_witness :
  let r := @chain Std.lib ([CQuery "tag" [VString "a"]] ++ [CHeader "x" [VInt 1]]
                           ++ [CQuery "tag" [VString "b"]]) (Get "/") [] in
  elems r.2 (query r.1) = [mkPair "tag" [VString "a"]; mkPair "tag" [VString "b"]]
  ∧ injectPairs ∅ (elems r.2 (query r.1)) !! "tag" = Some ["a"; "b"].
Proof.
  pose proof (@Query_same_key_appends Std.lib [] (Get "/") "tag" [VString "a"] [VString "b"]
                [CHeader "x" [VInt 1]] ∅) as Hw.
  simpl in Hw. split.
  - apply Hw; [reflexivity|repeat split; discriminate|repeat split; discriminate].
  - reflexivity.
Defined.

(** ** The error classifier *)

Lemma string_length_app (s1 s2 : string) :
  String.length (s1 +:+ s2) = String.length s1 + String.length s2.
Proof.
  induction s1 as [|a s1 IH]; [reflexivity|].
  change (S (String.length (s1 +:+ s2)) = S (String.length s1 + String.length s2)).
  by rewrite IH.
Qed.

Lemma string_of_bytes_length (b : list byte) :
  String.length (string_of_bytes b) = length b.
Proof.
  induction b as [|x b IH]; [reflexivity|].
  change (S (String.length (string_of_bytes b)) = S (length b)). by rewrite IH.
Qed.

Lemma processErrorResponse_read_ok (req : HttpRequest) (status : string) (code : Z)
    (hd : gmap string (list string)) (buf : list byte) :
  (processErrorResponse req (response_with status code hd buf)).1
  = match kind_of code with
    | Some s => Errorf_w_s (Sentinel s) (errMsg buf)
    | None => Errorf_s_s status (errMsg buf)
    end.
Proof.
  unfold processErrorResponse, kind_of. simpl.
  repeat (destruct (bool_decide _); [reflexivity|]). reflexivity.
Qed.




(** C5, amended.  The body excerpt of the error classified for a body
    read without error: a body longer than 4096 bytes contributes its
    first 4096 bytes followed by three dots, a body of at most 4096
    bytes contributes all its bytes and no mark.  When reading the body
    fails, the text of the error is that of the read failure and holds
    no excerpt. *)
Theorem errMsg_truncates (req : HttpRequest) (status : string) (code : Z)
    (hd : gmap string (list string)) (buf : list byte) :
  let e := (processErrorResponse req (response_with status code hd buf)).1 in
  maxErrLen = 4096
  ∧ Error e = kindText code status +:+ ": " +:+ errMsg buf
  ∧ (4096 < length buf →
     errMsg buf = string_of_bytes (take 4096 buf) +:+ "..."
     ∧ length (take 4096 buf) = 4096
     ∧ String.length (errMsg buf) = 4096 + 3)
  ∧ (length buf ≤ 4096 → errMsg buf = string_of_bytes buf)
  ∧ (∀ res err, body_err (resp_Body res) = Some err →
       Error (processErrorResponse req res).1 = "failed to read error body: " +:+ Error err).
Proof.
  intros e. split; [reflexivity|]. split.
  - subst e. rewrite processErrorResponse_read_ok. unfold kindText.
    destruct (kind_of code); reflexivity.
  - unfold errMsg. change maxErrLen with 4096. split; [|split].
    + intros Hlen. rewrite bool_decide_eq_true_2 by exact Hlen.
      split; [reflexivity|]. split; [rewrite length_take; lia|].
      rewrite string_length_app, string_of_bytes_length, length_take.
      change (String.length "...") with 3. lia.
    + intros Hlen. rewrite bool_decide_eq_false_2 by lia. reflexivity.
    + intros res err Herr. unfold processErrorResponse, io_ReadAll.
      rewrite Herr. reflexivity.
Qed.

Lemma errMsg_truncates_witness :
  errMsg (replicate 4097 x61%byte) = string_of_bytes (take 4096 (replicate 4097 x61%byte)) +:+ "..."
  ∧ errMsg (String.list_byte_of_string "missing") = "missing".
Proof.
  pose proof (errMsg_truncates sampleRequest "404 Not Found" 404 ∅
                (replicate 4097 x61%byte)) as (_ & _ & Hlong & _).
  pose proof (errMsg_truncates sampleRequest "404 Not Found" 404 ∅
                (String.list_byte_of_string "missing")) as (_ & _ & _ & Hshort & _).
  split.
  - apply Hlong. rewrite length_replicate. lia.
  - apply Hshort. simpl. lia.
Defined.

(** ** The executor *)

Section Execution.
Context `{Lib} {W : Type} `{Net W}.

(** The run of [do] once the request is materialized and a limiter is
    attached, split on the answer of the limiter. *)
Lemma do_limited (h : Heap) (t : Request) (l : rate_Limiter) (req : HttpRequest) (w : W) :
  limiter t = Some l → request h t = Ok req →
  do_ h t w
  = match limiter_Wait l Background w with
    | (Some err, w1) => (Failed err, w1, [EvWait l Background])
    | (None, w1) =>
        match client t with
        | None => (Panic, w1, [EvWait l Background])
        | Some c =>
            match client_Do c req w1 with
            | (Ok res, w2) =>
                if bool_decide (400 ≤ StatusCode res)%Z
                then (Failed (processErrorResponse req res).1, w2,
                      [EvWait l Background; EvDo c req] ++ (processErrorResponse req res).2)
                else (Ok (res, req), w2, [EvWait l Background; EvDo c req])
            | (Failed e, w2) => (Failed e, w2, [EvWait l Background; EvDo c req])
            | (Panic, w2) => (Panic, w2, [EvWait l Background; EvDo c req])
            end
        end
    end.
Proof.
  intros Hl Hreq. unfold do_. rewrite Hreq, Hl.
  destruct (limiter_Wait l Background w) as [[err|] w1]; [reflexivity|].
  destruct (client t) as [c|]; [|reflexivity].
  destruct (client_Do c req w1) as [[res|e|] w2]; reflexivity.
Qed.

(** C8. With a limiter attached and the request materialized, the
    first collaborator call of [do] is the wait on that limiter, made
    with the background context whatever context the builder carries;
    no other wait is made.  When the wait fails, its error is the
    result, the world is the one the limiter left, and the transport
    is not called. *)
Theorem do_waits_before_dispatch (h : Heap) (t : Request) (l : rate_Limiter)
    (req : HttpRequest) (w : W) :
  limiter t = Some l → request h t = Ok req →
  let run := do_ h t w in
  head run.2 = Some (EvWait l Background)
  ∧ filter (λ ev, is_wait ev = true) run.2 = [EvWait l Background]
  ∧ (∀ err, (limiter_Wait l Background w).1 = Some err →
       run = (Failed err, (limiter_Wait l Background w).2, [EvWait l Background])
       ∧ filter (λ ev, is_dispatch ev = true) run.2 = [])
  ∧ (∀ c, (limiter_Wait l Background w).1 = None → client t = Some c →
       take 2 run.2 = [EvWait l Background; EvDo c req]).
Proof.
  intros Hl Hreq run. subst run. rewrite (do_limited h t l req w Hl Hreq).
  destruct (limiter_Wait l Background w) as [[err|] w1]; simpl.
  - split; [reflexivity|]. split; [reflexivity|]. split.
    + intros e He. inversion He; subst. split; reflexivity.
    + intros c Hn. discriminate Hn.
  - destruct (client t) as [c|]; simpl.
    + destruct (client_Do c req w1) as [[res|e|] w2]; simpl;
        [destruct (bool_decide _); simpl| |];
        (split; [reflexivity|]); (split; [reflexivity|]);
        (split; [intros e0 He0; discriminate He0|]);
        intros c' _ Hc; inversion Hc; reflexivity.
    + split; [reflexivity|]. split; [reflexivity|]. split.
      * intros e0 He0; discriminate He0.
      * intros c' _ Hc; discriminate Hc.
Qed.
End Execution.

Lemma do_waits_before_dispatch_witness :
  let t := Limit (Some 7) (Context (Some (CallerCtx 1)) (Get "/data")) in
  let w := {| Std.waits := [Some (errorString "rate: Wait(n=1) exceeds limiter's burst 0")];
              Std.replies := [] |} in
  head (@do_ Std.lib Std.Script Std.net [] t w).2 = Some (EvWait 7 Background).
Proof.
  intros t w.
  refine (proj1 (@do_waits_before_dispatch Std.lib Std.Script Std.net [] t 7
                   (WithContext
                      {| req_Method := "GET";
                         req_URL := {| uScheme := "http"; uOpaque := ""; uUser := None;
                                       uHost := "localhost"; uPath := "/data";
                                       uRawQuery := ""; uFragment := "" |};
                         req_Header := ∅; req_Body := []; req_ctx := Background |}
                      (CallerCtx 1)) w _ _)); reflexivity.
Defined.

(** ** The materializer *)

Section Materializer.
Context `{Lib}.

Lemma call_user (c : config) (h : Heap) (t : Request) :
  sets_user c = false → user (call c t h).1 = user t.
Proof.
  destruct c; simpl; try discriminate; intros _; try reflexivity;
    unfold UserAgent, Authorization, Query, Header, JSON;
    try (destruct (append _ _ h); reflexivity).
  destruct (json_Marshal v). reflexivity.
Qed.

Lemma chain_user (cs : list config) (h : Heap) (t : Request) :
  never_sets_user cs = true → user (chain cs t h).1 = user t.
Proof.
  revert t h. induction cs as [|c cs IH]; intros t h Hn; [reflexivity|].
  simpl in *. apply andb_true_iff in Hn as [Hc Hcs]. apply negb_true_iff in Hc.
  pose proof (call_user c h t Hc) as Hu.
  destruct (call c t h) as [t' h']. simpl in *. rewrite IH by exact Hcs. exact Hu.
Qed.

(** The URL handed to [http.NewRequest] always carries the builder's
    credentials, never those of the parsed base URL. *)
Lemma request_url_user (h : Heap) (t : Request) (u1 : URL) :
  request_url h t = Ok u1 → uUser u1 = user t.
Proof.
  unfold request_url. destruct (url_Parse (url t)) as [u0| |]; simpl; try discriminate.
  intros Heq. inversion Heq. reflexivity.
Qed.

(** C9. On a builder made by [New] and configured without [User], the
    credentials are nil, and the materializer puts them in the place of
    whatever the parsed base URL carried: whenever the base URL parses,
    the URL handed to [http.NewRequest] has no user information and
    keeps the scheme, host, path and fragment of the parsed one. *)
Theorem request_erases_url_credentials (cs : list config) (m u : string) (h : Heap) :
  never_sets_user cs = true →
  let r := chain cs (New m u) h in
  user r.1 = None
  ∧ (∀ u0, url_Parse (url r.1) = Ok u0 →
       ∃ u1, request_url r.2 r.1 = Ok u1
             ∧ uUser u1 = None
             ∧ uScheme u1 = uScheme u0 ∧ uHost u1 = uHost u0
             ∧ uPath u1 = uPath u0 ∧ uFragment u1 = uFragment u0
             ∧ request r.2 r.1
               = (let? req := http_NewRequest (method r.1) (URL_String u1) (body r.1) in
                  let req := match ctx r.1 with
                             | Some c => WithContext req c
                             | None => req
                             end in
                  let req := set_Header req
                               (injectPairs (req_Header req) (elems r.2 (header r.1))) in
                  let req := if bool_decide (0 < length (body r.1))
                             then set_Header req
                                    (Header_Set (req_Header req) "Content-Length"
                                       (strconv_Itoa (length (body r.1))))
                             else req in
                  let req := if bool_decide (bodyMime r.1 ≠ "")
                             then set_Header req
                                    (Header_Set (req_Header req) "Content-Type" (bodyMime r.1))
                             else req in
                  Ok req)).
Proof.
  intros Hn r. assert (user r.1 = None) as Hu.
  { subst r. rewrite chain_user by exact Hn. reflexivity. }
  split; [exact Hu|]. intros u0 Hp.
  unfold request, request_url. rewrite Hp. simpl. eexists. split; [reflexivity|].
  rewrite Hu. destruct (bool_decide _); simpl; repeat split; reflexivity.
Qed.

(** C10. When [json.Marshal] reports an error for the value, [JSON]
    returns the builder that [Body] returns for an empty body and the
    JSON MIME type: the body is empty, the MIME type is set, the error
    is kept nowhere, and materializing or executing the builder gives
    what it gives for that [Body] call, with the JSON content type in
    the header of the request. *)
Theorem JSON_drops_marshal_error (v : value) (e : error) (t : Request) :
  (json_Marshal v).2 = Some e →
  JSON v t = Body [] jsonMime t
  ∧ body (JSON v t) = []
  ∧ bodyMime (JSON v t) = jsonMime
  ∧ (∀ h, request h (JSON v t) = request h (Body [] jsonMime t))
  ∧ (∀ (W : Type) (N : Net W) h w, do_ h (JSON v t) w = do_ h (Body [] jsonMime t) w)
  ∧ (∀ h req, request h (JSON v t) = Ok req →
       req_Header req !! CanonicalHeaderKey "Content-Type" = Some [jsonMime]).
Proof.
  intros He. assert (JSON v t = Body [] jsonMime t) as Heq.
  { unfold JSON. pose proof (json_Marshal_nil v e He) as Hnil.
    destruct (json_Marshal v) as [data err]. simpl in Hnil. subst data. reflexivity. }
  rewrite Heq. split; [reflexivity|]. split; [reflexivity|]. split; [reflexivity|].
  split; [reflexivity|]. split; [reflexivity|].
  intros h req. unfold request. simpl.
  destruct (request_url h (Body [] jsonMime t)) as [u1| |]; simpl; try discriminate.
  destruct (http_NewRequest _ _ _) as [req0| |]; simpl; try discriminate.
  intros Hr. inversion Hr. simpl. unfold Header_Set. apply lookup_insert_eq.
Qed.
End Materializer.

Lemma request_erases_url_credentials_witness :
  let r := @chain Std.lib [CQuery "x" [VInt 1]; CLimit (Some 3)]
             (New "GET" "http://alice:pw@host/") [] in
  user r.1 = None.
Proof.
  intros r.
  exact (proj1 (@request_erases_url_credentials Std.lib [CQuery "x" [VInt 1]; CLimit (Some 3)]
                  "GET" "http://alice:pw@host/" [] eq_refl)).
Defined.

Lemma JSON_drops_marshal_error_witness :
  @JSON Std.lib (VOther "chan int") (Post "/items") = Body [] jsonMime (Post "/items").
Proof.
  exact (proj1 (@JSON_drops_marshal_error Std.lib (VOther "chan int")
                  (errorString "json: unsupported type: chan int") (Post "/items") eq_refl)).
Defined.

(** The credentials written in a base URL do not reach the request. *)
Example credentials_in_url_erased :
  (λ req, Std.URL_String (req_URL req))
    <$> (match @request Std.lib [] (Get "http://alice:pw@host/") with
         | Ok req => Some req
         | _ => None
         end)
  = Some "http://host/".
Proof. vm_compute. reflexivity. Qed.

(** * Further properties *)

(** ** Merging pairs *)

(** X1. What [injectPairs] leaves under any key: the values that were
    there followed by the retained strings of the pairs carrying that
    key, in the order of the pairs; a key none of whose pairs is
    retained keeps what it had, present or not. *)
Theorem injectPairs_values_under_key (vals : gmap string (list string))
    (ps : list Pair) (k : string) :
  injectPairs vals ps !! k
  = match kept_under k ps with
    | [] => vals !! k
    | l => Some (default [] (vals !! k) ++ l)
    end.
Proof.
  revert vals. induction ps as [|p ps IH]; intros vals; [reflexivity|].
  rewrite kept_under_cons.
  destruct (omitted_or_retained (effective p)) as [Ho|Hr].
  - rewrite injectPairs_cons_omitted by exact Ho.
    rewrite decide_False by (rewrite retained_not_omitted; tauto). apply IH.
  - rewrite injectPairs_cons_retained, IH by exact Hr.
    destruct (decide (key p = k)) as [Hk|Hk].
    + rewrite decide_True by done. rewrite Hk, lookup_insert_eq. simpl.
      destruct (kept_under k ps); [reflexivity|]. by rewrite <- app_assoc.
    + rewrite decide_False by tauto. rewrite lookup_insert_ne by done. reflexivity.
Qed.

Lemma kept_under_other_keys (k : string) (ps : list Pair) :
  Forall (λ p, key p ≠ k) ps → kept_under k ps = [].
Proof.
  induction 1 as [|p ps Hp _ IH]; [reflexivity|].
  rewrite kept_under_cons, IH, decide_False by tauto. reflexivity.
Qed.

(** X2. A key that none of the pairs carries is left as it was. *)
Theorem injectPairs_untouched_key (vals : gmap string (list string))
    (ps : list Pair) (k : string) :
  Forall (λ p, key p ≠ k) ps → injectPairs vals ps !! k = vals !! k.
Proof.
  intros Hk. rewrite injectPairs_lookup, kept_under_other_keys by exact Hk. reflexivity.
Qed.

Lemma injectPairs_untouched_key_witness :
  injectPairs {["keep" := ["v"]]} [mkPair "a" [VInt 1]; mkPair "b" [VBool true]] !! "keep"
  = ({["keep" := ["v"]]} : gmap string (list string)) !! "keep".
Proof.
  apply (injectPairs_untouched_key {["keep" := ["v"]]}
           [mkPair "a" [VInt 1]; mkPair "b" [VBool true]] "keep").
  constructor; [discriminate|]. constructor; [discriminate|]. constructor.
Defined.

(** X3. Pairs that are all omitted change nothing, whatever their keys;
    a pair without candidates is one of them. *)
Theorem injectPairs_all_omitted (vals : gmap string (list string)) (ps : list Pair) :
  Forall (λ p, omitted (effective p) ∨ values p = []) ps → injectPairs vals ps = vals.
Proof.
  induction 1 as [|p ps Hp _ IH]; [reflexivity|].
  rewrite injectPairs_cons_omitted; [exact IH|].
  destruct Hp as [Ho|Hnil]; [exact Ho|].
  unfold effective. rewrite Hnil. left. reflexivity.
Qed.

Lemma injectPairs_all_omitted_witness :
  injectPairs {["q" := ["go"]]} [mkPair "page" [VInt 0]; mkPair "debug" []; mkPair "q" [VString ""]]
  = {["q" := ["go"]]}.
Proof.
  apply (injectPairs_all_omitted {["q" := ["go"]]}
           [mkPair "page" [VInt 0]; mkPair "debug" []; mkPair "q" [VString ""]]).
  constructor; [left; right; left; reflexivity|].
  constructor; [right; reflexivity|].
  constructor; [left; left; reflexivity|].
  constructor.
Defined.

(** X4. Merging a list of pairs in two parts, one after the other, is
    merging the whole list. *)
Theorem injectPairs_in_two_steps (vals : gmap string (list string)) (ps1 ps2 : list Pair) :
  injectPairs (injectPairs vals ps1) ps2 = injectPairs vals (ps1 ++ ps2).
Proof.
  revert vals. induction ps1 as [|p ps1 IH]; intros vals; [reflexivity|].
  destruct (omitted_or_retained (effective p)) as [Ho|Hr].
  - rewrite <- app_comm_cons, !injectPairs_cons_omitted by exact Ho. apply IH.
  - rewrite <- app_comm_cons, !injectPairs_cons_retained by exact Hr. apply IH.
Qed.

(** X5. Values already under a key are never removed, replaced or
    reordered: they remain, as a prefix of the values under that key. *)
Theorem injectPairs_keeps_existing (vals : gmap string (list string)) (ps : list Pair)
    (k : string) (l : list string) :
  vals !! k = Some l →
  injectPairs vals ps !! k = Some (l ++ kept_under k ps).
Proof.
  intros Hl. rewrite injectPairs_lookup, Hl. simpl.
  destruct (kept_under k ps); [by rewrite app_nil_r|reflexivity].
Qed.

Lemma injectPairs_keeps_existing_witness :
  injectPairs {["tag" := ["a"]]} [mkPair "tag" [VString "b"]; mkPair "tag" [VInt 0]] !! "tag"
  = Some (["a"] ++ kept_under "tag" [mkPair "tag" [VString "b"]; mkPair "tag" [VInt 0]]).
Proof.
  apply (injectPairs_keeps_existing {["tag" := ["a"]]}
           [mkPair "tag" [VString "b"]; mkPair "tag" [VInt 0]] "tag" ["a"]).
  reflexivity.
Defined.

(** X6. A candidate that is the nil interface is not omitted: the pair is
    emitted with the text [<nil>].  A byte slice is taken byte for byte,
    so the bytes of [0] are omitted like the string [0]. *)
Theorem injectPairs_nil_candidate (vals : gmap string (list string)) (k : string)
    (vs : list value) :
  injectPairs vals [mkPair k (vs ++ [VNil])] !! k = Some (default [] (vals !! k) ++ ["<nil>"])
  ∧ injectPairs vals [mkPair k (vs ++ [VBytes [x30%byte]])] = vals.
Proof.
  split.
  - unfold injectPairs. rewrite effective_snoc. simpl. apply lookup_insert_eq.
  - unfold injectPairs. rewrite effective_snoc. reflexivity.
Qed.

(** ** The constructor, again *)

Lemma strings_Cut_cons (c a : ascii) (s : string) :
  strings_Cut (String a s) (String c "")
  = if decide (a = c) then Some ("", s)
    else match strings_Cut s (String c "") with
         | Some (before, after) => Some (String a before, after)
         | None => None
         end.
Proof.
  simpl. destruct (ascii_dec c a) as [->|Hne].
  - rewrite decide_True by reflexivity.
    assert (String.prefix "" s = true) as -> by (destruct s; reflexivity).
    by rewrite Nat.sub_0_r, substring_all.
  - rewrite decide_False by congruence. reflexivity.
Qed.

Lemma before_query_cons (c : ascii) (s : string) :
  before_query (String c s)
  = if decide (c = "?"%char) then "" else String c (before_query s).
Proof.
  unfold before_query, strings_SplitN_2. rewrite strings_Cut_cons.
  destruct (decide (c = "?"%char)); [reflexivity|].
  destruct (strings_Cut s "?") as [[before after]|]; reflexivity.
Qed.

Lemma before_query_idemp (s : string) : before_query (before_query s) = before_query s.
Proof.
  induction s as [|c s IH]; [reflexivity|].
  rewrite before_query_cons. destruct (decide (c = "?"%char)) as [Hc|Hc]; [reflexivity|].
  rewrite before_query_cons, decide_False by exact Hc. by rewrite IH.
Qed.

Lemma HasPrefix_before_query (s : string) (c : ascii) :
  c ≠ "?"%char →
  strings_HasPrefix (before_query s) (String c "") = strings_HasPrefix s (String c "").
Proof.
  intros Hc. destruct s as [|a s]; [reflexivity|].
  rewrite before_query_cons. unfold strings_HasPrefix.
  assert (∀ x y, String.prefix (String c "") (String x y) = bool_decide (c = x)) as Hp.
  { intros x y. simpl. destruct (ascii_dec c x) as [->|Hx].
    - rewrite bool_decide_eq_true_2 by reflexivity. destruct y; reflexivity.
    - by rewrite bool_decide_eq_false_2. }
  destruct (decide (a = "?"%char)) as [->|Ha].
  - rewrite Hp, bool_decide_eq_false_2 by exact Hc. reflexivity.
  - by rewrite !Hp.
Qed.

Lemma url_New (m u : string) :
  url (New m u)
  = before_query (if strings_HasPrefix u "/" || strings_HasPrefix u ":"
                  then "http://localhost" +:+ u else u).
Proof. reflexivity. Qed.

(** X7. The URL stored by [New] is a fixed point of its normalization:
    building again from it, with any method, stores the same URL. *)
Theorem New_url_idempotent (m m' u : string) :
  url (New m' (url (New m u))) = url (New m u).
Proof.
  rewrite (url_New m' (url (New m u))).
  assert (strings_HasPrefix (url (New m u)) "/" || strings_HasPrefix (url (New m u)) ":"
          = false) as ->.
  { rewrite url_New, !HasPrefix_before_query by discriminate.
    destruct (strings_HasPrefix u "/" || strings_HasPrefix u ":") eqn:E; [reflexivity|exact E]. }
  rewrite url_New. apply before_query_idemp.
Qed.

Lemma before_query_no_query (s : string) : ¬ has_query s → before_query s = s.
Proof.
  unfold has_query. induction s as [|c s IH]; [reflexivity|]. simpl. intros Hn.
  rewrite before_query_cons, decide_False by (intros ->; apply Hn; by left).
  rewrite IH; [reflexivity|]. intros Hin. apply Hn. by right.
Qed.

(** X8. A URL with no [?] that starts with neither [/] nor [:] is stored
    as it is; one that starts with [/] or [:] is stored behind
    [http://localhost]. *)
Theorem New_keeps_url_without_query (m u : string) :
  ¬ has_query u →
  url (New m u)
  = if strings_HasPrefix u "/" || strings_HasPrefix u ":"
    then "http://localhost" +:+ u else u.
Proof.
  intros Hn. rewrite url_New. apply before_query_no_query.
  destruct (_ || _); [|exact Hn].
  unfold has_query in *. simpl. intros Hin.
  repeat (destruct Hin as [Hd|Hin]; [discriminate Hd|]). exact (Hn Hin).
Qed.

Lemma New_keeps_url_without_query_witness :
  url (New "PUT" "https://example.com/items/7")
  = if strings_HasPrefix "https://example.com/items/7" "/"
       || strings_HasPrefix "https://example.com/items/7" ":"
    then "http://localhost" +:+ "https://example.com/items/7"
    else "https://example.com/items/7".
Proof.
  apply (New_keeps_url_without_query "PUT" "https://example.com/items/7").
  unfold has_query. simpl. intros Hin.
  repeat (destruct Hin as [Hd|Hin]; [discriminate Hd|]). exact Hin.
Defined.

(** ** Builders that share arrays *)

Section Reach.
Context `{Lib}.

Lemma append_frame_weak (h : Heap) (s s' : slice) (x : Pair) :
  slice_ok h s' = true →
  (S (len s) ≤ cap s → ptr s' = ptr s → len s' ≤ len s) →
  elems (append s x h).2 s' = elems h s'.
Proof.
  intros Hok Hshare. destruct (decide (S (len s) ≤ cap s)) as [Hroom|Hfull].
  - apply append_frame; auto.
  - apply slice_ok_spec in Hok as [Hl [Hc|(arr & Ha & Harr)]]; unfold elems.
    { assert (len s' = 0) as -> by lia. reflexivity. }
    unfold append. destruct (decide _); [lia|]. simpl.
    rewrite (lookup_app_l_Some _ _ _ _ Ha), Ha. reflexivity.
Qed.

Lemma append_out_of_reach (h : Heap) (s s' : slice) (x : Pair) :
  slice_ok h s' = true →
  (S (len s) ≤ cap s → ptr s' = ptr s → len s' ≤ len s) →
  S (len (append s x h).1) ≤ cap (append s x h).1 →
  ptr s' = ptr (append s x h).1 → len s' ≤ len (append s x h).1.
Proof.
  intros Hok Hshare. unfold append.
  destruct (decide (S (len s) ≤ cap s)) as [Hroom|Hfull]; simpl; intros _ Hp.
  - specialize (Hshare Hroom Hp). lia.
  - apply slice_ok_spec in Hok as [Hl [Hc|(arr & Ha & Harr)]]; [lia|].
    apply lookup_lt_Some in Ha. lia.
Qed.

Lemma call_out_of_reach (c : config) (h : Heap) (t : Request) (s' : slice) :
  slice_ok h s' = true → out_of_reach s' t →
  slice_ok (call c t h).2 s' = true
  ∧ out_of_reach s' (call c t h).1
  ∧ elems (call c t h).2 s' = elems h s'.
Proof.
  intros Hok [Hq Hh].
  assert (∀ x, slice_ok (append (query t) x h).2 s' = true
               ∧ out_of_reach s' (set_query t (append (query t) x h).1)
               ∧ elems (append (query t) x h).2 s' = elems h s') as HQ.
  { intros x. split; [by apply append_ok_old|]. split; [|by apply append_frame_weak].
    split; simpl; [by apply append_out_of_reach|exact Hh]. }
  assert (∀ x, slice_ok (append (header t) x h).2 s' = true
               ∧ out_of_reach s' (set_header t (append (header t) x h).1)
               ∧ elems (append (header t) x h).2 s' = elems h s') as HH.
  { intros x. split; [by apply append_ok_old|]. split; [|by apply append_frame_weak].
    split; simpl; [exact Hq|by apply append_out_of_reach]. }
  destruct c; simpl; try (split; [exact Hok|split; [split; assumption|reflexivity]]);
    unfold UserAgent, Authorization, Query, Header, JSON;
    try (match goal with
         | |- context [append (query t) ?x h] =>
             specialize (HQ x); destruct (append (query t) x h); exact HQ
         | |- context [append (header t) ?x h] =>
             specialize (HH x); destruct (append (header t) x h); exact HH
         end).
  destruct (json_Marshal v). split; [exact Hok|split; [split; assumption|reflexivity]].
Qed.

Lemma chain_out_of_reach (cs : list config) (h : Heap) (t : Request) (s' : slice) :
  slice_ok h s' = true → out_of_reach s' t →
  elems (chain cs t h).2 s' = elems h s'.
Proof.
  revert t h. induction cs as [|c cs IH]; intros t h Hok Hr; [reflexivity|].
  simpl. destruct (call_out_of_reach c h t s' Hok Hr) as (Hok' & Hr' & He).
  destruct (call c t h) as [t' h']. simpl in *. rewrite IH by assumption. exact He.
Qed.

Lemma receiver_out_of_reach (h : Heap) (t : Request) :
  Request_ok h t = true → out_of_reach (query t) t ∧ out_of_reach (header t) t.
Proof.
  rewrite Request_ok_spec, !slice_ok_spec.
  intros ([Hlq _] & [Hlh _] & Hd). unfold out_of_reach.
  repeat split; intros; try lia; destruct Hd as [?|[?|?]]; try lia; congruence.
Qed.

(** X9. A chain of configuration calls, however long, leaves the builder
    it started from as it was: the receiver shows the same query pairs
    and the same header pairs after the chain as before. *)
Theorem chain_leaves_receiver (cs : list config) (h : Heap) (t : Request) :
  Request_ok h t = true →
  elems (chain cs t h).2 (query t) = elems h (query t)
  ∧ elems (chain cs t h).2 (header t) = elems h (header t).
Proof.
  intros Hok. destruct (receiver_out_of_reach h t Hok) as [Hq Hh].
  apply Request_ok_spec in Hok as (Hsq & Hsh & _).
  split; apply chain_out_of_reach; assumption.
Qed.

(** X10. What a chain of calls builds: the pairs of the builder it
    started from, followed by the pairs of its [Query] calls in call
    order, and likewise the header pairs with canonical keys; the calls
    of one kind do not disturb the list of the other. *)
Theorem chain_shows_pairs_in_order (cs : list config) (h : Heap) (t : Request) :
  Request_ok h t = true →
  elems (chain cs t h).2 (query (chain cs t h).1) = elems h (query t) ++ queries_of cs
  ∧ elems (chain cs t h).2 (header (chain cs t h).1) = elems h (header t) ++ headers_of cs.
Proof. intros Hok. split; [by apply chain_query|by apply chain_header]. Qed.

(** X11. When the query array of the receiver is full (as it is for a
    builder fresh from [New]), each [Query] call gets an array of its
    own: the builder returned by a first call is not disturbed by a
    second call on the same receiver. *)
Theorem Query_siblings_independent (h : Heap) (t : Request) (k1 k2 : string)
    (vs1 vs2 : list value) :
  Request_ok h t = true →
  len (query t) = cap (query t) →
  let r1 := Query k1 vs1 t h in
  let r2 := Query k2 vs2 t r1.2 in
  elems r2.2 (query r1.1) = elems h (query t) ++ [mkPair k1 vs1]
  ∧ elems r2.2 (query r2.1) = elems h (query t) ++ [mkPair k2 vs2]
  ∧ elems r2.2 (query t) = elems h (query t).
Proof.
  intros Hok Hfull r1 r2.
  pose proof (Query_query h t k1 vs1 Hok) as H1.
  pose proof (Query_ok h t k1 vs1 Hok) as Hok1.
  apply Request_ok_spec in Hok as (Hq & _).
  apply Request_ok_spec in Hok1 as (Hq1 & _).
  pose proof (append_ok_old h (query t) (query t) (mkPair k1 vs1) Hq) as Hqt.
  pose proof (append_receiver h (query t) (mkPair k1 vs1) Hq) as Hrt.
  subst r1 r2. unfold Query in *. unfold mkPair in *.
  destruct (append (query t) _ h) as [q1 h1]. simpl in *.
  pose proof (append_frame_weak h1 (query t) q1 (mkPair k2 vs2) Hq1) as Hf1.
  pose proof (append_elems h1 (query t) (mkPair k2 vs2) Hqt) as He2.
  pose proof (append_receiver h1 (query t) (mkPair k2 vs2) Hqt) as Hr2.
  unfold mkPair in *. destruct (append (query t) _ h1) as [q2 h2]. simpl in *.
  rewrite Hf1 by lia. rewrite He2, Hr2, Hrt. auto.
Qed.
End Reach.

Lemma chain_leaves_receiver_witness :
  let r := @chain Std.lib [CQuery "a" [VInt 1]; CQuery "b" [VInt 2]; CQuery "c" [VInt 3]]
             (Get "/") [] in
  let r' := @chain Std.lib [CQuery "x" [VInt 1]; CHeader "h" [VInt 2]; CQuery "y" [VInt 3]]
              r.1 r.2 in
  elems r'.2 (query r.1) = elems r.2 (query r.1).
Proof.
  intros r r'.
  exact (proj1 (@chain_leaves_receiver Std.lib
                  [CQuery "x" [VInt 1]; CHeader "h" [VInt 2]; CQuery "y" [VInt 3]]
                  r.2 r.1 eq_refl)).
Defined.

Lemma chain_shows_pairs_in_order_witness :
  let r := @chain Std.lib [CQuery "a" [VInt 1]; CUserAgent "curl"; CQuery "b" [VInt 2]]
             (Get "/") [] in
  elems r.2 (query r.1) = elems [] (query (Get "/")) ++ queries_of
                            [CQuery "a" [VInt 1]; CUserAgent "curl"; CQuery "b" [VInt 2]].
Proof.
  intros r.
  exact (proj1 (@chain_shows_pairs_in_order Std.lib
                  [CQuery "a" [VInt 1]; CUserAgent "curl"; CQuery "b" [VInt 2]]
                  [] (Get "/") eq_refl)).
Defined.

Lemma Query_siblings_independent_witness :
  let r1 := @Query Std.lib "x" [VInt 1] (Get "/") [] in
  let r2 := @Query Std.lib "y" [VInt 2] (Get "/") r1.2 in
  elems r2.2 (query r1.1) = elems [] (query (Get "/")) ++ [mkPair "x" [VInt 1]].
Proof.
  intros r1 r2.
  exact (proj1 (@Query_siblings_independent Std.lib [] (Get "/") "x" "y" [VInt 1] [VInt 2]
                  eq_refl eq_refl)).
Defined.

Lemma Query_siblings_overwrite_witness :
  let r := @chain Std.lib [CQuery "a" [VInt 1]; CQuery "b" [VInt 2]; CQuery "c" [VInt 3]]
             (Get "/") [] in
  let r1 := @Query Std.lib "x" [VInt 1] r.1 r.2 in
  let r2 := @Query Std.lib "y" [VInt 2] r.1 r1.2 in
  elems r2.2 (query r1.1) = elems r.2 (query r.1) ++ [mkPair "y" [VInt 2]].
Proof.
  intros r r1 r2.
  refine (proj1 (proj2 (@Query_siblings_overwrite Std.lib r.2 r.1 "x" "y" [VInt 1] [VInt 2]
                          eq_refl _))).
  vm_compute. lia.
Defined.

(** ** Calls that assign a field *)

Section Setters.
Context `{Lib}.

Lemma assigns_heap (c : config) (f : field) (t : Request) (h : Heap) :
  assigns c = Some f → (call c t h).2 = h.
Proof. destruct c; simpl; try discriminate; reflexivity. Qed.

(** X13. A call that assigns a field of the struct can change places
    with any call that does not assign the same field, a [Query] or
    [Header] call included: both orders give the same builder and the
    same heap. *)
Theorem assignment_commutes (c c' : config) (f : field) (t : Request) (h : Heap) :
  assigns c = Some f → assigns c' ≠ Some f →
  chain [c; c'] t h = chain [c'; c] t h.
Proof.
  intros Hc Hc'.
  destruct c; simpl in Hc; try discriminate Hc; inversion Hc; subst f;
    destruct c'; simpl in Hc'; try (exfalso; apply Hc'; reflexivity);
    simpl; unfold UserAgent, Authorization, Query, Header, JSON, Form, Body, Client,
             Context, User, Limit;
    repeat (match goal with
            | |- context [json_Marshal ?v] => destruct (json_Marshal v)
            end); simpl;
    repeat (match goal with
            | |- context [append ?s ?x h] => destruct (append s x h)
            end); reflexivity.
Qed.

(** X14. Of two calls that assign the same field the later one decides:
    the earlier call might as well not have been made.  In particular
    [Body], [Form] and [JSON] each replace both the body and its MIME
    type. *)
Theorem later_assignment_wins (c c' : config) (f : field) (t : Request) (h : Heap) :
  assigns c = Some f → assigns c' = Some f →
  chain [c; c'] t h = chain [c'] t h.
Proof.
  intros Hc Hc'.
  destruct c; simpl in Hc; try discriminate Hc; inversion Hc; subst f;
    destruct c'; simpl in Hc'; try discriminate Hc';
    simpl; unfold JSON; simpl;
    repeat (match goal with
            | |- context [json_Marshal ?v] => destruct (json_Marshal v)
            end); reflexivity.
Qed.
End Setters.

Lemma assignment_commutes_witness :
  @chain Std.lib [CLimit (Some 3); CQuery "q" [VString "go"]] (Get "/") []
  = @chain Std.lib [CQuery "q" [VString "go"]; CLimit (Some 3)] (Get "/") [].
Proof.
  apply (@assignment_commutes Std.lib (CLimit (Some 3)) (CQuery "q" [VString "go"]) FLimiter);
    [reflexivity|discriminate].
Defined.

Lemma later_assignment_wins_witness :
  @chain Std.lib [CJSON (VInt 1); CBody [x68%byte; x69%byte] "text/plain"] (Post "/") []
  = @chain Std.lib [CBody [x68%byte; x69%byte] "text/plain"] (Post "/") [].
Proof.
  apply (@later_assignment_wins Std.lib (CJSON (VInt 1))
           (CBody [x68%byte; x69%byte] "text/plain") FBody); reflexivity.
Defined.

(** ** The materialized request *)

Section Materialized.
Context `{Lib}.

(** X15. Of a base URL that parses, the materializer changes two
    components only: the user information, which becomes the builder's
    credentials whatever the URL carried, and the raw query, which
    becomes the encoding of the merged query values unless that encoding
    is empty. *)
Theorem request_url_changes_query_and_user (h : Heap) (t : Request) (u1 : URL) :
  request_url h t = Ok u1 →
  ∃ u0, url_Parse (url t) = Ok u0
        ∧ uUser u1 = user t
        ∧ uScheme u1 = uScheme u0 ∧ uOpaque u1 = uOpaque u0 ∧ uHost u1 = uHost u0
        ∧ uPath u1 = uPath u0 ∧ uFragment u1 = uFragment u0
        ∧ uRawQuery u1
          = (let q := Values_Encode (injectPairs (URL_Query u0) (elems h (query t))) in
             if bool_decide (q ≠ "") then q else uRawQuery u0).
Proof.
  unfold request_url. destruct (url_Parse (url t)) as [u0| |]; simpl; try discriminate.
  intros Heq. inversion Heq. exists u0. split; [reflexivity|].
  destruct (bool_decide _); simpl; repeat split; reflexivity.
Qed.

Lemma request_inv (h : Heap) (t : Request) (req : HttpRequest) :
  request h t = Ok req →
  ∃ u1 req0, request_url h t = Ok u1
    ∧ http_NewRequest (method t) (URL_String u1) (body t) = Ok req0
    ∧ req_Method req = req_Method req0 ∧ req_URL req = req_URL req0
    ∧ req_Body req = req_Body req0
    ∧ req_ctx req = match ctx t with Some c => c | None => req_ctx req0 end
    ∧ req_Header req
      = let hd := injectPairs (req_Header req0) (elems h (header t)) in
        let hd := if bool_decide (0 < length (body t))
                  then Header_Set hd "Content-Length" (strconv_Itoa (length (body t)))
                  else hd in
        if bool_decide (bodyMime t ≠ "")
        then Header_Set hd "Content-Type" (bodyMime t) else hd.
Proof.
  unfold request. destruct (request_url h t) as [u1| |]; simpl; try discriminate.
  destruct (http_NewRequest _ _ _) as [req0| |] eqn:Hnew; simpl; try discriminate.
  intros [= <-]. exists u1, req0.
  split; [reflexivity|]. split; [exact Hnew|].
  destruct (ctx t); destruct (bool_decide (0 < length (body t)));
    destruct (bool_decide (bodyMime t ≠ "")); simpl; repeat split; reflexivity.
Qed.

(** X16. The content headers of a materialized request.  With a MIME
    type set, [Content-Type] holds that type alone, whatever the header
    pairs said.  With a non-empty body, [Content-Length] holds the
    decimal length of the body alone (the two canonical keys being
    different, or no MIME type being set).  With neither, the header is
    the one [http.NewRequest] gave, merged with the header pairs. *)
Theorem request_content_headers (h : Heap) (t : Request) (req : HttpRequest) :
  request h t = Ok req →
  (bodyMime t ≠ "" →
   req_Header req !! CanonicalHeaderKey "Content-Type" = Some [bodyMime t])
  ∧ (body t ≠ [] →
     bodyMime t = "" ∨ CanonicalHeaderKey "Content-Length" ≠ CanonicalHeaderKey "Content-Type" →
     req_Header req !! CanonicalHeaderKey "Content-Length"
     = Some [strconv_Itoa (length (body t))])
  ∧ (body t = [] → bodyMime t = "" →
     ∃ u1 req0, request_url h t = Ok u1
       ∧ http_NewRequest (method t) (URL_String u1) (body t) = Ok req0
       ∧ req_Header req = injectPairs (req_Header req0) (elems h (header t))).
Proof.
  intros Hreq. destruct (request_inv h t req Hreq)
    as (u1 & req0 & Hu & Hn & _ & _ & _ & _ & Hh).
  rewrite Hh. clear Hh. simpl. split; [|split].
  - intros Hm. rewrite bool_decide_eq_true_2 by exact Hm. apply lookup_insert_eq.
  - intros Hb Hk.
    assert (0 < length (body t)) as Hlen by (destruct (body t); [done|simpl; lia]).
    rewrite (bool_decide_eq_true_2 _ Hlen).
    destruct Hk as [Hm|Hne].
    + rewrite bool_decide_eq_false_2 by (rewrite Hm; auto). apply lookup_insert_eq.
    + destruct (bool_decide (bodyMime t ≠ "")); unfold Header_Set.
      * rewrite lookup_insert_ne by congruence. apply lookup_insert_eq.
      * apply lookup_insert_eq.
  - intros Hb Hm. exists u1, req0. split; [exact Hu|]. split; [exact Hn|].
    rewrite Hb, Hm. reflexivity.
Qed.

(** X17. The materializer takes method, URL and body from what
    [http.NewRequest] returns and replaces the context only when the
    builder carries one: with a context attached the request carries
    exactly that context. *)
Theorem request_context (h : Heap) (t : Request) (req : HttpRequest) :
  request h t = Ok req →
  ∃ u1 req0, request_url h t = Ok u1
    ∧ http_NewRequest (method t) (URL_String u1) (body t) = Ok req0
    ∧ req_Method req = req_Method req0 ∧ req_URL req = req_URL req0
    ∧ req_Body req = req_Body req0
    ∧ req_ctx req = match ctx t with Some c => c | None => req_ctx req0 end.
Proof.
  intros Hreq. destruct (request_inv h t req Hreq)
    as (u1 & req0 & Hu & Hn & Hm & Hurl & Hb & Hc & _).
  exists u1, req0. auto 10.
Qed.

(** X18. A base URL that does not parse stops everything: [request]
    returns the parse error as it is, and [do] returns it without
    waiting on the limiter, without calling the transport and without
    changing the world. *)
Theorem parse_error_stops_execution {W : Type} `{Net W} (h : Heap) (t : Request)
    (e : error) (w : W) :
  url_Parse (url t) = Failed e →
  request h t = Failed e ∧ do_ h t w = (Failed e, w, []).
Proof.
  intros Hp. assert (request h t = Failed e) as Hr.
  { unfold request, request_url. rewrite Hp. reflexivity. }
  split; [exact Hr|]. unfold do_. rewrite Hr. reflexivity.
Qed.
End Materialized.

Lemma request_url_changes_query_and_user_witness :
  ∃ u0, Std.Parse (url (User (Some {| username := "bob"; password := ""; passwordSet := false |})
                          (Get "http://alice:pw@host/p")))
        = Ok u0.
Proof.
  destruct (@request_url_changes_query_and_user Std.lib []
              (User (Some {| username := "bob"; password := ""; passwordSet := false |})
                 (Get "http://alice:pw@host/p"))
              {| uScheme := "http"; uOpaque := "";
                 uUser := Some {| username := "bob"; password := ""; passwordSet := false |};
                 uHost := "host"; uPath := "/p"; uRawQuery := ""; uFragment := "" |}
              eq_refl) as (u0 & Hp & _).
  exists u0. exact Hp.
Defined.

Lemma request_content_headers_witness :
  req_Header sample_upload_request !! "Content-Type" = Some ["text/plain"]
  ∧ req_Header sample_upload_request !! "Content-Length" = Some ["2"].
Proof.
  pose proof (@request_content_headers Std.lib [] sample_upload sample_upload_request eq_refl)
    as (Hct & Hcl & _).
  split.
  - apply Hct. discriminate.
  - apply Hcl; [discriminate|right; discriminate].
Defined.

Lemma request_context_witness :
  ∃ u1 req0, @request_url Std.lib [] (Context (Some (CallerCtx 4)) sample_upload) = Ok u1
    ∧ Std.NewRequest "POST" (Std.URL_String u1) [x68%byte; x69%byte] = Ok req0.
Proof.
  destruct (@request_context Std.lib [] (Context (Some (CallerCtx 4)) sample_upload)
              (WithContext sample_upload_request (CallerCtx 4)) eq_refl)
    as (u1 & req0 & Hu & Hn & _).
  exists u1, req0. split; [exact Hu|exact Hn].
Defined.

Lemma parse_error_stops_execution_witness :
  @do_ Std.lib Std.Script Std.net []
    (Limit (Some 1) (Get (String (ascii_of_nat 10) "http://host/")))
    {| Std.waits := []; Std.replies := [] |}
  = (Failed (errorString (("parse " +:+ Std.quote (String (ascii_of_nat 10) "http://host/"))
                          +:+ ": net/url: invalid control character in URL")),
     {| Std.waits := []; Std.replies := [] |}, []).
Proof.
  apply (@parse_error_stops_execution Std.lib Std.Script Std.net).
  reflexivity.
Defined.

(** ** Runs of the executor *)

Section Runs.
Context `{Lib} {W : Type} `{Net W}.

(** X19. One execution calls the transport at most once and waits on
    the limiter at most once: nothing is retried.  Without a limiter
    there is no wait at all. *)
Theorem do_never_retries (h : Heap) (t : Request) (w : W) :
  length (filter (λ ev, is_dispatch ev = true) (do_ h t w).2) ≤ 1
  ∧ length (filter (λ ev, is_wait ev = true) (do_ h t w).2) ≤ 1
  ∧ (limiter t = None → filter (λ ev, is_wait ev = true) (do_ h t w).2 = []).
Proof.
  unfold do_. destruct (request h t) as [req| |]; simpl; try (repeat split; lia).
  destruct (limiter t) as [l|]; simpl.
  - destruct (limiter_Wait l Background w) as [[err|] w1]; simpl;
      [repeat split; (lia || discriminate)|].
    destruct (client t) as [c|]; simpl; [|repeat split; (lia || discriminate)].
    destruct (client_Do c req w1) as [[res|e|] w2]; simpl;
      [destruct (bool_decide _); simpl| |]; repeat split; (lia || discriminate).
  - destruct (client t) as [c|]; simpl; [|repeat split; lia].
    destruct (client_Do c req w) as [[res|e|] w2]; simpl;
      [destruct (bool_decide _); simpl| |]; repeat split; lia.
Qed.

(** X20. A successful execution returns the materialized request and a
    response whose status code is below 400, has called the transport
    with that request as its last collaborator call, and has neither
    read nor closed the body. *)
Theorem do_success_leaves_body_open (h : Heap) (t : Request) (w : W)
    (res : Response) (req : HttpRequest) :
  (do_ h t w).1.1 = Ok (res, req) →
  request h t = Ok req
  ∧ (StatusCode res < 400)%Z
  ∧ filter (λ ev, is_body_event ev = true) (do_ h t w).2 = []
  ∧ ∃ c, client t = Some c ∧ last (do_ h t w).2 = Some (EvDo c req).
Proof.
  unfold do_. destruct (request h t) as [req'| |]; simpl; try discriminate.
  destruct (match limiter t with
            | Some l => let '(err, w0) := limiter_Wait l Background w in
                        (err, w0, [EvWait l Background])
            | None => (None, w, [])
            end) as [[admitted w1] tr] eqn:Hadm.
  assert (filter (λ ev, is_body_event ev = true) tr = []) as Htr.
  { destruct (limiter t) as [l|]; [destruct (limiter_Wait l Background w)|];
      inversion Hadm; reflexivity. }
  destruct admitted as [err|]; simpl; try discriminate.
  destruct (client t) as [c|]; simpl; try discriminate.
  destruct (client_Do c req' w1) as [[res'|e|] w2]; simpl; try discriminate.
  destruct (bool_decide (400 ≤ StatusCode res')%Z) eqn:Hcode; simpl; try discriminate.
  intros [= <- <-]. apply bool_decide_eq_false_1 in Hcode.
  split; [reflexivity|]. split; [lia|]. split.
  - rewrite filter_app, Htr. reflexivity.
  - exists c. split; [reflexivity|]. apply last_snoc.
Qed.

(** X21. Without a limiter, with a request that materializes and a
    client: an answer with a status code of 400 or more gives the
    classified error, after the body has been read and closed; an
    answer below 400 is returned as it is; an error of the transport is
    returned as it is, and no body is touched. *)
Theorem do_outcomes (h : Heap) (t : Request) (w w2 : W) (c : http_Client)
    (req : HttpRequest) (r : result Response) :
  limiter t = None → request h t = Ok req → client t = Some c →
  client_Do c req w = (r, w2) →
  (∀ res, r = Ok res → (400 ≤ StatusCode res)%Z →
     do_ h t w = (Failed (processErrorResponse req res).1, w2,
                  [EvDo c req; EvReadAll; EvClose]))
  ∧ (∀ res, r = Ok res → (StatusCode res < 400)%Z →
     do_ h t w = (Ok (res, req), w2, [EvDo c req]))
  ∧ (∀ e, r = Failed e → do_ h t w = (Failed e, w2, [EvDo c req])).
Proof.
  intros Hl Hreq Hc Hdo. unfold do_. rewrite Hreq, Hl, Hc, Hdo. simpl.
  split; [|split].
  - intros res -> Hcode. rewrite bool_decide_eq_true_2 by exact Hcode. reflexivity.
  - intros res -> Hcode. rewrite bool_decide_eq_false_2 by lia. reflexivity.
  - intros e ->. reflexivity.
Qed.
End Runs.

Lemma do_success_leaves_body_open_witness :
  @request Std.lib [] sample_upload = Ok sample_upload_request.
Proof.
  apply (@do_success_leaves_body_open Std.lib Std.Script Std.net [] sample_upload
           (reply_with 200 "200 OK" [x6f%byte; x6b%byte])
           (response_with "200 OK" 200 ∅ [x6f%byte; x6b%byte]) sample_upload_request).
  reflexivity.
Defined.

Lemma do_outcomes_witness :
  @do_ Std.lib Std.Script Std.net [] sample_upload (reply_with 404 "404 Not Found" [])
  = (Failed (processErrorResponse sample_upload_request
               (response_with "404 Not Found" 404 ∅ [])).1,
     {| Std.waits := []; Std.replies := [] |},
     [EvDo http_DefaultClient sample_upload_request; EvReadAll; EvClose]).
Proof.
  refine (proj1 (@do_outcomes Std.lib Std.Script Std.net [] sample_upload
                   (reply_with 404 "404 Not Found" []) _ http_DefaultClient
                   sample_upload_request _ eq_refl eq_refl eq_refl eq_refl) _ eq_refl _).
  simpl. lia.
Defined.

Lemma do_never_retries_witness :
  filter (λ ev, is_wait ev = true)
    (@do_ Std.lib Std.Script Std.net [] sample_upload (reply_with 200 "200 OK" [])).2 = [].
Proof.
  apply (proj2 (proj2 (@do_never_retries Std.lib Std.Script Std.net [] sample_upload
                         (reply_with 200 "200 OK" [])))).
  reflexivity.
Defined.

(** ** The classifier, again *)

(** X22. When reading the body of the error response fails, the status
    is not looked at: the error is the read failure, wrapped under the
    text [failed to read error body], it is of the kinds the read
    failure is of and of no other, and the body is closed all the same. *)
Theorem processErrorResponse_read_failure (req : HttpRequest) (res : Response) (err : error) :
  body_err (resp_Body res) = Some err →
  (processErrorResponse req res).1 = wrapError ("failed to read error body: " +:+ Error err) err
  ∧ (∀ target, errors_Is (processErrorResponse req res).1 target = errors_Is err target)
  ∧ (processErrorResponse req res).2 = [EvReadAll; EvClose].
Proof.
  intros He. unfold processErrorResponse, io_ReadAll. rewrite He. simpl.
  repeat split; reflexivity.
Qed.

Lemma processErrorResponse_read_failure_witness :
  (processErrorResponse sampleRequest
     {| Status := "503 Service Unavailable"; StatusCode := 503; resp_Header := ∅;
        resp_Body := {| body_data := []; body_err := Some (Sentinel ErrDeadlineExceeded) |} |}).1
  = wrapError ("failed to read error body: " +:+ Error (Sentinel ErrDeadlineExceeded))
      (Sentinel ErrDeadlineExceeded).
Proof.
  apply (processErrorResponse_read_failure sampleRequest
           {| Status := "503 Service Unavailable"; StatusCode := 503; resp_Header := ∅;
              resp_Body := {| body_data := [];
                              body_err := Some (Sentinel ErrDeadlineExceeded) |} |}
           (Sentinel ErrDeadlineExceeded)).
  reflexivity.
Defined.

Lemma string_of_bytes_app (a b : list byte) :
  string_of_bytes (a ++ b) = string_of_bytes a +:+ string_of_bytes b.
Proof.
  induction a as [|x a IH]; [reflexivity|].
  change (String (ascii_of_byte x) (string_of_bytes (a ++ b))
          = String (ascii_of_byte x) (string_of_bytes a +:+ string_of_bytes b)).
  by rewrite IH.
Qed.

(** X23. The body excerpt is never longer than 4099 bytes, it always
    starts with the first bytes of the body, up to 4096 of them, and the
    only thing that can follow them is the three dots. *)
Theorem errMsg_bounded (buf : list byte) :
  String.length (errMsg buf) ≤ 4096 + 3
  ∧ ∃ mark, errMsg buf = string_of_bytes (take 4096 buf) +:+ mark
            ∧ (mark = "" ∨ mark = "...").
Proof.
  unfold errMsg. change maxErrLen with 4096.
  destruct (bool_decide (4096 < length buf)) eqn:E.
  - apply bool_decide_eq_true_1 in E. split.
    + rewrite string_length_app, string_of_bytes_length, length_take.
      change (String.length "...") with 3. lia.
    + exists "...". auto.
  - apply bool_decide_eq_false_1 in E. rewrite take_ge by lia. split.
    + rewrite string_of_bytes_length. lia.
    + exists "". split; [|by left]. symmetry. apply append_empty_r.
Qed.

(** X24. A classified error is of at most one kind: the kinds of the
    taxonomy exclude one another, and a read failure apart, no error of
    the classifier is of a kind owned by a collaborator. *)
Theorem classified_kind_is_unique (req : HttpRequest) (status : string) (code : Z)
    (hd : gmap string (list string)) (buf : list byte) (k1 k2 : sentinel) :
  let e := (processErrorResponse req (response_with status code hd buf)).1 in
  errors_Is e k1 = true → errors_Is e k2 = true →
  k1 = k2 ∧ k1 ∈ [ErrNotExist; ErrPermission; ErrDeadlineExceeded; ErrInvalid].
Proof.
  intros e. subst e. rewrite processErrorResponse_read_ok.
  unfold kind_of.
  repeat (destruct (bool_decide (code = _)); simpl;
          [intros H1 H2; apply bool_decide_eq_true_1 in H1, H2; subst;
           split; [reflexivity|set_solver]|]).
  discriminate.
Qed.

Lemma classified_kind_is_unique_witness :
  ErrPermission = ErrPermission
  ∧ ErrPermission ∈ [ErrNotExist; ErrPermission; ErrDeadlineExceeded; ErrInvalid].
Proof.
  apply (classified_kind_is_unique sampleRequest "403 Forbidden" 403 ∅ []
           ErrPermission ErrPermission); reflexivity.
Defined.

(** ** The terminal operations *)

Section Terminal.
Context `{Lib} {W : Type} `{Net W}.

(** X25. [Open], [Stat] and [Err] stand on one execution.  When [Open]
    returns a file, [Stat] returns the metadata of that file and [Err]
    returns no error, in the same world, after the same collaborator
    calls followed by one close of the body, which [Open] leaves open;
    the metadata hold the URL of the materialized request and the header
    of the response.  When [Open] fails, [Stat] and [Err] fail with the
    same error, world and calls. *)
Theorem Open_Stat_Err_agree (h : Heap) (t : Request) (w : W) :
  (∀ f, (Open h t w).1.1 = Ok f →
     Stat h t w = (Ok (f_fileInfo f), (Open h t w).1.2, (Open h t w).2 ++ [EvClose])
     ∧ Err h t w = (Ok (), (Open h t w).1.2, (Open h t w).2 ++ [EvClose])
     ∧ (Open h t w).2 = (do_ h t w).2
     ∧ ∃ res req, (do_ h t w).1.1 = Ok (res, req)
                  ∧ f = {| f_fileInfo := {| fi_url := req_URL req;
                                            fi_header := resp_Header res |};
                           f_body := resp_Body res |})
  ∧ (∀ e, (Open h t w).1.1 = Failed e →
       (do_ h t w).1.1 = Failed e
       ∧ Stat h t w = (Failed e, (do_ h t w).1.2, (do_ h t w).2)
       ∧ Err h t w = (Failed e, (do_ h t w).1.2, (do_ h t w).2)
       ∧ Open h t w = (Failed e, (do_ h t w).1.2, (do_ h t w).2)).
Proof.
  unfold Open, Stat, Err.
  destruct (do_ h t w) as [[[[res req]|e|] w'] tr]; simpl; split;
    try (intros ? [=]); subst; try (repeat split; reflexivity).
  split; [reflexivity|]. split; [reflexivity|]. split; [reflexivity|]. eauto.
Qed.
End Terminal.

Lemma Open_Stat_Err_agree_witness :
  @Stat Std.lib Std.Script Std.net [] sample_upload
    (reply_with 200 "200 OK" [x6f%byte; x6b%byte])
  = (Ok {| fi_url := req_URL sample_upload_request; fi_header := ∅ |},
     {| Std.waits := []; Std.replies := [] |},
     [EvDo http_DefaultClient sample_upload_request] ++ [EvClose]).
Proof.
  apply (proj1 (@Open_Stat_Err_agree Std.lib Std.Script Std.net [] sample_upload
                  (reply_with 200 "200 OK" [x6f%byte; x6b%byte]))
           {| f_fileInfo := {| fi_url := req_URL sample_upload_request; fi_header := ∅ |};
              f_body := {| body_data := [x6f%byte; x6b%byte]; body_err := None |} |}).
  reflexivity.
Defined.

(** * The omission rule, the excerpt and repeated keys on the request *)

Lemma values_after_lookup (vals : gmap string (list string)) (ps : list Pair) (k : string) :
  injectPairs vals ps !! k = values_after (vals !! k) (kept_under k ps).
Proof. rewrite injectPairs_lookup. unfold values_after. destruct (kept_under k ps); reflexivity. Qed.

Lemma kept_under_drop_omitted (k : string) (ps1 ps2 : list Pair) (p : Pair) :
  omitted (effective p) → kept_under k (ps1 ++ p :: ps2) = kept_under k (ps1 ++ ps2).
Proof.
  intros Ho. rewrite !kept_under_app, kept_under_cons.
  rewrite decide_False by (rewrite retained_not_omitted; tauto). reflexivity.
Qed.

Lemma kept_under_keep_retained (ps1 ps2 : list Pair) (p : Pair) :
  retained (effective p) →
  kept_under (key p) (ps1 ++ p :: ps2)
  = kept_under (key p) ps1 ++ effective p :: kept_under (key p) ps2.
Proof.
  intros Hr. rewrite kept_under_app, kept_under_cons, decide_True by done. reflexivity.
Qed.

(** C2, as written, fails on the header: a retained header pair under
    the content type key is not emitted when the builder has a MIME type
    for its body; the request carries the MIME type alone. *)
Lemma content_type_pair_is_replaced : ¬ every_retained_header_pair_is_emitted.
Proof.
  intros Hall.
  destruct (Hall sample_typed.2 sample_typed.1
              {| req_Method := "POST";
                 req_URL := {| uScheme := "http"; uOpaque := ""; uUser := None;
                               uHost := "localhost"; uPath := "/items"; uRawQuery := "";
                               uFragment := "" |};
                 req_Header := <["Content-Type" := ["application/json"]]>
                                 (<["Content-Length" := ["2"]]>
                                    (<["Content-Type" := ["text/plain"]]> ∅));
                 req_Body := [x7b%byte; x7d%byte]; req_ctx := Background |}
              (mkPair "Content-Type" [VString "text/plain"]))
    as (l & Hl & Hin).
  - vm_compute. reflexivity.
  - vm_compute. left.
  - repeat split; discriminate.
  - vm_compute in Hl. inversion Hl; subst l.
    change (effective (mkPair "Content-Type" [VString "text/plain"])) with "text/plain" in Hin.
    apply list_elem_of_singleton in Hin. discriminate Hin.
Qed.

Section RequestPairs.
Context `{Lib}.

(** C2, amended.  In a materialized request, the values merged into the
    query are, under every key, those of the parsed URL followed by the
    strings of the retained query pairs with that key, and their
    encoding is the raw query of the URL handed on, unless it is empty.
    The header holds, under every key other than the content length key
    of a non-empty body and the content type key of a set MIME type,
    the values [http.NewRequest] gave followed by the strings of the
    retained header pairs with that key; under those two keys it holds
    the body length and the MIME type alone.  A pair whose string is
    empty, [0] or [false] contributes nothing under any key; a pair with
    any other string, blanks included, contributes that string under its
    key, between the strings of the pairs before it and after it. *)
Theorem request_omission_rule (h : Heap) (t : Request) (req : HttpRequest) :
  request h t = Ok req →
  (∃ u0 u1 req0 merged,
     url_Parse (url t) = Ok u0 ∧ request_url h t = Ok u1
     ∧ http_NewRequest (method t) (URL_String u1) (body t) = Ok req0
     ∧ req_URL req = req_URL req0
     ∧ merged = injectPairs (URL_Query u0) (elems h (query t))
     ∧ (∀ k, merged !! k = values_after (URL_Query u0 !! k) (kept_under k (elems h (query t))))
     ∧ uRawQuery u1 = (if bool_decide (Values_Encode merged ≠ "")
                       then Values_Encode merged else uRawQuery u0)
     ∧ (∀ k, (body t ≠ [] → k ≠ CanonicalHeaderKey "Content-Length") →
             (bodyMime t ≠ "" → k ≠ CanonicalHeaderKey "Content-Type") →
             req_Header req !! k
             = values_after (req_Header req0 !! k) (kept_under k (elems h (header t)))))
  ∧ (bodyMime t ≠ "" →
     req_Header req !! CanonicalHeaderKey "Content-Type" = Some [bodyMime t])
  ∧ (body t ≠ [] →
     bodyMime t = "" ∨ CanonicalHeaderKey "Content-Length" ≠ CanonicalHeaderKey "Content-Type" →
     req_Header req !! CanonicalHeaderKey "Content-Length"
     = Some [strconv_Itoa (length (body t))])
  ∧ (∀ k ps1 ps2 p, omitted (effective p) →
       kept_under k (ps1 ++ p :: ps2) = kept_under k (ps1 ++ ps2))
  ∧ (∀ ps1 ps2 p, retained (effective p) →
       kept_under (key p) (ps1 ++ p :: ps2)
       = kept_under (key p) ps1 ++ effective p :: kept_under (key p) ps2)
  ∧ retained (effective (mkPair "k" [VString "  "]))
  ∧ omitted (effective (mkPair "k" [VInt 0]))
  ∧ omitted (effective (mkPair "k" [VBool false]))
  ∧ omitted (effective (mkPair "k" [VString ""])).
Proof.
  intros Hreq.
  destruct (request_inv h t req Hreq) as (u1 & req0 & Hu & Hn & _ & Hurl & _ & _ & Hh).
  assert (0 < length (body t) ↔ body t ≠ []) as Hlen
    by (destruct (body t); simpl; split; (lia || congruence)).
  split; [|split; [|split; [|split; [|split]]]].
  - pose proof Hu as Hu'. unfold request_url in Hu'.
    destruct (url_Parse (url t)) as [u0| |]; simpl in Hu'; try discriminate Hu'.
    injection Hu' as <-.
    exists u0, (set_User
                  (if bool_decide (Values_Encode (injectPairs (URL_Query u0)
                                                    (elems h (query t))) ≠ "")
                   then set_RawQuery u0 (Values_Encode (injectPairs (URL_Query u0)
                                                          (elems h (query t))))
                   else u0) (user t)), req0,
      (injectPairs (URL_Query u0) (elems h (query t))).
    split; [reflexivity|]. split; [exact Hu|]. split; [exact Hn|]. split; [exact Hurl|].
    split; [reflexivity|]. split; [intros k; apply values_after_lookup|]. split.
    + destruct (bool_decide _); reflexivity.
    + intros k Hcl Hct. rewrite Hh. simpl.
      destruct (bool_decide (bodyMime t ≠ "")) eqn:Em;
        destruct (bool_decide (0 < length (body t))) eqn:Eb; unfold Header_Set;
        try apply bool_decide_eq_true_1 in Em; try apply bool_decide_eq_true_1 in Eb;
        rewrite ?lookup_insert_ne by (first [apply not_eq_sym, Hct; exact Em
                                            |apply not_eq_sym, Hcl, Hlen; exact Eb]);
        apply values_after_lookup.
  - intros Hm. rewrite Hh. simpl. rewrite bool_decide_eq_true_2 by exact Hm.
    apply lookup_insert_eq.
  - intros Hb Hk. rewrite Hh. simpl.
    rewrite (bool_decide_eq_true_2 (0 < length (body t))) by (apply Hlen, Hb).
    destruct Hk as [Hm|Hne].
    + rewrite bool_decide_eq_false_2 by (rewrite Hm; auto). apply lookup_insert_eq.
    + destruct (bool_decide (bodyMime t ≠ "")); unfold Header_Set.
      * rewrite lookup_insert_ne by congruence. apply lookup_insert_eq.
      * apply lookup_insert_eq.
  - intros k ps1 ps2 p. apply kept_under_drop_omitted.
  - intros ps1 ps2 p. apply kept_under_keep_retained.
  - unfold retained, omitted. simpl. repeat split; auto; discriminate.
Qed.
End RequestPairs.

Lemma request_omission_rule_witness :
  ∃ u1, @request_url Std.lib sample_search.2 sample_search.1 = Ok u1
        ∧ uRawQuery u1 = "q=++"
        ∧ req_Header sample_search_request !! "X-Id" = Some ["7"]
        ∧ req_Header sample_search_request !! "Page" = None.
Proof.
  destruct (proj1 (@request_omission_rule Std.lib sample_search.2 sample_search.1
                     sample_search_request eq_refl))
    as (u0 & u1 & req0 & merged & Hp & Hu & Hn & _).
  exists u1. split; [exact Hu|]. vm_compute in Hu. injection Hu as <-.
  repeat split; reflexivity.
Defined.

(** C5, as written, fails: a body of 5000 bytes whose read stops with
    an error gives the text of the read failure, which holds no byte of
    the body. *)
Lemma read_failure_has_no_excerpt : ¬ every_long_body_is_excerpted.
Proof.
  intros Hall.
  set (res := {| Status := "500 Internal Server Error"; StatusCode := 500; resp_Header := ∅;
                 resp_Body := {| body_data := replicate 5000 x61%byte;
                                 body_err := Some (Sentinel (ErrExternal "unexpected EOF")) |} |}).
  assert (length (body_data (resp_Body res)) = 5000) as Hlen by apply length_replicate.
  assert (Error (processErrorResponse sampleRequest res).1
          = "failed to read error body: unexpected EOF") as Htext by reflexivity.
  destruct (Hall sampleRequest res) as (before & Hb); [lia|].
  rewrite Htext in Hb. apply (f_equal String.length) in Hb.
  rewrite !string_length_app, string_of_bytes_length, length_take, Hlen in Hb.
  change (String.length "...") with 3 in Hb.
  change (String.length "failed to read error body: unexpected EOF") with 41 in Hb. lia.
Qed.

(** C7, on the code.  Two [Query] calls with the key [tag], the second
    one on the builder the first returned; in between, another [Query]
    call on the builder the first was made on, whose array has a free
    cell.  The pair of the first call is overwritten in the shared cell:
    the last builder shows [other=y] where [tag=x] was, only [z] is
    merged under [tag], and the raw query of the URL handed on is
    [a=1&b=2&c=3&other=y&tag=z]. *)
Theorem Query_same_key_lost_to_sibling :
  let r := @chain Std.lib [CQuery "a" [VInt 1]; CQuery "b" [VInt 2]; CQuery "c" [VInt 3]]
             (Get "/") [] in
  let r1 := @Query Std.lib "tag" [VString "x"] r.1 r.2 in
  let r2 := @Query Std.lib "other" [VString "y"] r.1 r1.2 in
  let r3 := @Query Std.lib "tag" [VString "z"] r1.1 r2.2 in
  elems r1.2 (query r1.1)
  = [mkPair "a" [VInt 1]; mkPair "b" [VInt 2]; mkPair "c" [VInt 3]; mkPair "tag" [VString "x"]]
  ∧ elems r3.2 (query r3.1)
    = [mkPair "a" [VInt 1]; mkPair "b" [VInt 2]; mkPair "c" [VInt 3];
       mkPair "other" [VString "y"]; mkPair "tag" [VString "z"]]
  ∧ injectPairs ∅ (elems r3.2 (query r3.1)) !! "tag" = Some ["z"]
  ∧ (uRawQuery <$> (match @request_url Std.lib r3.2 r3.1 with Ok u => Some u | _ => None end))
    = Some "a=1&b=2&c=3&other=y&tag=z"
  ∧ (req_URL <$> (match @request Std.lib r3.2 r3.1 with Ok q => Some q | _ => None end))
    = Some {| uScheme := "http"; uOpaque := ""; uUser := None; uHost := "localhost";
              uPath := "/"; uRawQuery := "a=1&b=2&c=3&other=y&tag=z"; uFragment := "" |}.
Proof. vm_compute. repeat split; reflexivity. Qed.
